(** * keyline: the natural-language-to-SQL pipeline of [database_frontend.py]

    A shallow embedding of the [dataBase] function and of the string
    processing it performs on the model's answer, followed by the
    properties stated about it.

    - Python [str] values are lists of Unicode code points.
    - [re.search] is a backtracking matcher run on the compiled form of
      the pattern used in the source.
    - The libraries (SSH tunnel, database, prompt and chain, language
      model) are an interface whose every call may return or raise;
      [dataBase] is written in a state-and-exception monad over it and
      records every call it makes, with its outcome.
    - Exceptions are the ones [except Exception] catches; the display
      calls of Streamlit are output events. *)

From Stdlib Require Import List NArith Arith Bool Lia Ascii String.
From Stdlib Require Import DecimalString.
Import ListNotations.


(* ================================================================== *)
(** * Python strings *)
(* ================================================================== *)

Module PyStr.

(** A character is a code point; a [str] is a sequence of them. *)
Definition char := N.
Definition str := list char.

(** ASCII literals. *)
Definition lit (s : string) : str := map N_of_ascii (list_ascii_of_string s).
Arguments lit s%_string.

Definition nl : str := [10%N].

Definition str_eqb (a b : str) : bool :=
  if list_eq_dec N.eq_dec a b then true else false.

(** [Py_UNICODE_ISSPACE]: the characters removed by [str.strip()] and
    matched by [\s] in a [str] pattern. *)
Definition isspace (c : char) : bool :=
  ((9 <=? c) && (c <=? 13) || (28 <=? c) && (c <=? 32)
   || (c =? 0x85) || (c =? 0xA0) || (c =? 0x1680)
   || (0x2000 <=? c) && (c <=? 0x200A)
   || (c =? 0x2028) || (c =? 0x2029) || (c =? 0x202F)
   || (c =? 0x205F) || (c =? 0x3000))%N.

Fixpoint lstrip (s : str) : str :=
  match s with
  | c :: s' => if isspace c then lstrip s' else s
  | [] => []
  end.

Definition rstrip (s : str) : str := rev (lstrip (rev s)).

(** [s.strip()] *)
Definition strip (s : str) : str := rstrip (lstrip s).

(** [s.startswith(p)] *)
Fixpoint startswith (p s : str) : bool :=
  match p, s with
  | [], _ => true
  | a :: p', b :: s' => (a =? b)%N && startswith p' s'
  | _ :: _, [] => false
  end.

(** [s.endswith(suffix)] *)
Definition endswith (s suffix : str) : bool :=
  startswith (rev suffix) (rev s).

(** [sub in s] *)
Fixpoint contains (sub s : str) : bool :=
  startswith sub s ||
  match s with
  | [] => false
  | _ :: s' => contains sub s'
  end.

(** [s.replace(old, new)] for a non-empty [old]: the non-overlapping
    occurrences of [old] are replaced from left to right.  [skip] counts
    the characters of an occurrence that are still to be dropped. *)
Fixpoint replace_from (old new s : str) (skip : nat) : str :=
  match s with
  | [] => []
  | c :: s' =>
      match skip with
      | S k => replace_from old new s' k
      | O => if startswith old s
             then new ++ replace_from old new s' (List.length old - 1)
             else c :: replace_from old new s' 0
      end
  end.

Definition replace (s old new : str) : str := replace_from old new s 0.

(** [sep.join(items)] *)
Fixpoint join (sep : str) (items : list str) : str :=
  match items with
  | [] => []
  | [x] => x
  | x :: rest => x ++ sep ++ join sep rest
  end.

(** [s[lo:hi]] for [0 <= lo <= hi]. *)
Definition slice (s : str) (lo hi : nat) : str := firstn (hi - lo) (skipn lo s).

(** [str(n)] for a non-negative integer. *)
Definition str_of_N (n : N) : str := lit (NilZero.string_of_uint (N.to_uint n)).

(** [f"{v}"] for a value that is [None] or a string. *)
Definition fmt_opt (v : option str) : str :=
  match v with
  | Some s => s
  | None => lit "None"
  end.

End PyStr.
Import PyStr.

(* ================================================================== *)
(** * Regular expressions: the fragment used by the source *)
(* ================================================================== *)

Module Re.

(** Compiled pattern nodes.  Repetition is only ever applied to a single
    character class in the source's pattern. *)
Inductive node :=
| In (cls : char -> bool)          (* one character of a class *)
| MaxRepeat (cls : char -> bool)   (* cls*   greedy *)
| MinRepeat (cls : char -> bool)   (* cls*?  lazy *)
| MarkOpen                         (* start of group 1 *)
| MarkClose.                       (* end of group 1 *)

(** A successful match: its end and the span of group 1. *)
Definition found := (nat * nat * nat)%type.

(** Backtracking match of [pat] against the text from [pos] on ([s] is
    the text from [pos]); alternatives are tried in priority order and the
    first success is returned. *)
Fixpoint match_here (pat : list node) :
  str -> nat -> nat -> nat -> option found :=
  match pat with
  | [] => fun _ pos lo hi => Some (pos, lo, hi)
  | In cls :: rest => fun s pos lo hi =>
      match s with
      | c :: s' => if cls c then match_here rest s' (S pos) lo hi else None
      | [] => None
      end
  | MaxRepeat cls :: rest =>
      fix greedy (s : str) (pos lo hi : nat) {struct s} : option found :=
        match s with
        | c :: s' =>
            if cls c then
              match greedy s' (S pos) lo hi with
              | Some r => Some r
              | None => match_here rest s pos lo hi
              end
            else match_here rest s pos lo hi
        | [] => match_here rest s pos lo hi
        end
  | MinRepeat cls :: rest =>
      fix lazy (s : str) (pos lo hi : nat) {struct s} : option found :=
        match match_here rest s pos lo hi with
        | Some r => Some r
        | None =>
            match s with
            | c :: s' => if cls c then lazy s' (S pos) lo hi else None
            | [] => None
            end
        end
  | MarkOpen :: rest => fun s pos _ hi => match_here rest s pos pos hi
  | MarkClose :: rest => fun s pos lo _ => match_here rest s pos lo pos
  end.

(** A match object: [m.start()], [m.end()], [m.span(1)]. *)
Record match_obj := MatchObj {
  m_start : nat;
  m_end : nat;
  m_lo : nat;
  m_hi : nat
}.

(** [re.search]: the leftmost position at which the pattern matches. *)
Fixpoint search_from (pat : list node) (s : str) (pos : nat) : option match_obj :=
  match match_here pat s pos 0 0 with
  | Some (e, lo, hi) => Some (MatchObj pos e lo hi)
  | None =>
      match s with
      | [] => None
      | _ :: s' => search_from pat s' (S pos)
      end
  end.

Definition search (pat : list node) (text : str) : option match_obj :=
  search_from pat text 0.

(** [m.group(1)] *)
Definition group1 (text : str) (m : match_obj) : str :=
  slice text (m_lo m) (m_hi m).

(** Character classes of the pattern.  Under [re.IGNORECASE] a [str]
    pattern's [s] also matches U+017F (long s); [q] and [l] only have
    their capitals.  Under [re.DOTALL] the dot matches every character. *)
Definition backtick (c : char) : bool := (c =? 96)%N.
Definition ic_s (c : char) : bool := ((c =? 115) || (c =? 83) || (c =? 0x17F))%N.
Definition ic_q (c : char) : bool := ((c =? 113) || (c =? 81))%N.
Definition ic_l (c : char) : bool := ((c =? 108) || (c =? 76))%N.
Definition dot_all (_ : char) : bool := true.

(** [r"```sql\s*(.*?)\s*```"] with [re.DOTALL | re.IGNORECASE]. *)
Definition fence_re : list node :=
  [ In backtick; In backtick; In backtick; In ic_s; In ic_q; In ic_l;
    MaxRepeat isspace;
    MarkOpen; MinRepeat dot_all; MarkClose;
    MaxRepeat isspace;
    In backtick; In backtick; In backtick ].

End Re.

(* ================================================================== *)
(** * Extraction of the query from the model's answer *)
(* ================================================================== *)

Definition fence : str := lit "```".
Definition semicolon : str := lit ";".

(** Lines 88-89 and 118-119: the candidate query. *)
Definition candidate (res_text : str) : str :=
  match Re.search Re.fence_re res_text with
  | Some m => strip (Re.group1 res_text m)
  | None => strip res_text
  end.

(** Line 91: the cleanup pass of the initial attempt. *)
Definition cleanup (sql_query : str) : str :=
  strip (replace (replace sql_query fence []) (lit "sql") []).

(** Lines 92-93 and 121-122: the terminator. *)
Definition ensure_terminator (sql_query : str) : str :=
  if negb (endswith sql_query semicolon) then sql_query ++ semicolon
  else sql_query.

(** Lines 88-93: the query executed by the initial attempt. *)
Definition extract_initial (res_text : str) : str :=
  ensure_terminator (cleanup (candidate res_text)).

(** Lines 118-122: the query executed by the retry. *)
Definition extract_retry (retry_text : str) : str :=
  ensure_terminator (candidate retry_text).


(** ** Sample answers *)

(** A fenced answer whose statement already carries two terminators. *)
Definition two_terminators : str :=
  lit "```sql" ++ nl ++ lit "SELECT 1;;" ++ nl ++ lit "```".

(** An answer fenced without the [sql] tag. *)
Definition fenced_without_tag : str :=
  lit "```" ++ nl ++ lit "SELECT name FROM customers;" ++ nl ++ lit "```".

(* ================================================================== *)
(** * The pipeline *)
(* ================================================================== *)

Module Pipeline.

(** An exception, carrying what [str(e)] returns. *)
Record exn := Exception { message : str }.

Inductive result (A : Type) :=
| Ok (a : A)
| Raise (e : exn).
Arguments Ok {A} a.
Arguments Raise {A} e.

(** What [db.run] returns: a string (the library's default) or a sequence
    of tuples of strings. *)
Inductive value :=
| VStr (s : str)
| VRows (rows : list (list str)).

(** [bool(v)] *)
Definition truthy (v : value) : bool :=
  match v with
  | VStr [] | VRows [] => false
  | _ => true
  end.

(** [t[0]] for an element of the listing. *)
Definition first_item (t : list str) : result str :=
  match t with
  | x :: _ => Ok x
  | [] => Raise (Exception (lit "tuple index out of range"))
  end.

Fixpoint first_items (rows : list (list str)) : result (list str) :=
  match rows with
  | [] => Ok []
  | t :: rest =>
      match first_item t with
      | Raise e => Raise e
      | Ok x =>
          match first_items rest with
          | Raise e => Raise e
          | Ok xs => Ok (x :: xs)
          end
      end
  end.

(** Line 73: [[t[0] for t in table_data]]; iterating a string yields its
    characters, whose item 0 is the character itself. *)
Definition table_names_of (table_data : value) : result (list str) :=
  match table_data with
  | VStr s => Ok (map (fun c => [c]) s)
  | VRows rows => first_items rows
  end.

(** Arguments of the [SSHTunnelForwarder] constructor, lines 54-62. *)
Record tunnel_args := TunnelArgs {
  ssh_address_or_host : option str * N;
  ssh_username : option str;
  ssh_password : option str;
  remote_bind_address : str * N;
  local_bind_address : str * N;
  allow_agent : bool;
  host_pkey_directories : list str
}.

(** The dictionary passed to [chain.invoke]. *)
Record request := Request {
  rq_question : str;
  rq_table_info : str;
  rq_top_k : str
}.

(** Which [db.run] call site an event comes from. *)
Inductive purpose := Listing | Query.

(** Calls to the collaborators, as recorded in the trace. *)
Inductive call :=
| TunnelNew (args : tunnel_args)
| TunnelStart
| BindPort
| TunnelStop
| FromUri (uri : str)
| GetTableInfo
| DbRun (p : purpose) (command : str)
| FromTemplate (template : str)
| CreateChain
| Invoke (rq : request)
| NewLlm (model : str) (temperature : N) (api_key : option str).

Inductive outcome := Returned | Raised (e : exn).

Inductive event :=
| Ext (c : call) (o : outcome)
| St_success (body : str)
| St_code (body : str)
| St_error (body : str)
| St_info (body : str)
| St_warning (body : str)
| St_write (v : value).

Section Collaborators.

(** The outside world and the objects the libraries hand out. *)
Variables W Tunnel Db Prompt Chain Llm : Type.

(** Every library call may return or raise, and may change the world. *)
Record Libs := {
  SSHTunnelForwarder : tunnel_args -> W -> result Tunnel * W;
  server_start : Tunnel -> W -> result unit * W;
  server_local_bind_port : Tunnel -> W -> result N * W;
  server_stop : Tunnel -> W -> result unit * W;
  SQLDatabase_from_uri : str -> W -> result Db * W;
  db_get_table_info : Db -> W -> result str * W;
  db_run : Db -> str -> W -> result value * W;
  PromptTemplate_from_template : str -> W -> result Prompt * W;
  create_sql_query_chain : Llm -> Db -> Prompt -> W -> result Chain * W;
  chain_invoke : Chain -> request -> W -> result str * W;
  ChatOpenAI : str -> N -> option str -> W -> result Llm * W
}.

Variable libs : Libs.

(** [os.getenv], after [load_dotenv()]. *)
Variable getenv : str -> option str.

(** Lines 16-22. *)
Definition SSH_HOST : option str := getenv (lit "SSH_HOST").
Definition SSH_USER : option str := getenv (lit "SSH_USER").
Definition SSH_PASSWORD : option str := getenv (lit "SSH_PASSWORD").
Definition DB_USER : option str := getenv (lit "DB_USER").
Definition DB_PASSWORD : option str := getenv (lit "DB_PASSWORD").
Definition DB_NAME : option str := getenv (lit "DB_NAME").

(** ** The monad: world, trace of events, and the local [server] *)

Record state := State {
  world : W;
  trace : list event;
  server : option Tunnel
}.

Definition M (A : Type) := state -> result A * state.

Definition ret {A} (a : A) : M A := fun st => (Ok a, st).

Definition bind {A B} (m : M A) (k : A -> M B) : M B :=
  fun st =>
    match m st with
    | (Ok a, st') => k a st'
    | (Raise e, st') => (Raise e, st')
    end.

Definition raise {A} (e : exn) : M A := fun st => (Raise e, st).

(** [try: body  except Exception as e: handler e] *)
Definition try_except {A} (body : M A) (handler : exn -> M A) : M A :=
  fun st =>
    match body st with
    | (Ok a, st') => (Ok a, st')
    | (Raise e, st') => handler e st'
    end.

(** [try: body  finally: cleanup]; an exception raised by the cleanup
    replaces the outcome of the body. *)
Definition try_finally {A} (body : M A) (cleanup : M unit) : M A :=
  fun st =>
    match body st with
    | (r, st') =>
        match cleanup st' with
        | (Ok _, st'') => (r, st'')
        | (Raise e, st'') => (Raise e, st'')
        end
    end.

Definition emit (ev : event) : M unit :=
  fun st => (Ok tt, State (world st) (trace st ++ [ev]) (server st)).

(** A library call, recorded with its outcome. *)
Definition ext {A} (c : call) (op : W -> result A * W) : M A :=
  fun st =>
    match op (world st) with
    | (Ok a, w) => (Ok a, State w (trace st ++ [Ext c Returned]) (server st))
    | (Raise e, w) => (Raise e, State w (trace st ++ [Ext c (Raised e)]) (server st))
    end.

Definition lift {A} (r : result A) : M A := fun st => (r, st).

Definition set_server (v : option Tunnel) : M unit :=
  fun st => (Ok tt, State (world st) (trace st) v).

Definition get_server : M (option Tunnel) := fun st => (Ok (server st), st).

Notation "x <- m ;; k" := (bind m (fun x => k))
  (at level 61, m at next level, right associativity).
Notation "m ;; k" := (bind m (fun _ => k))
  (at level 61, right associativity).

(** ** Lines 27-46 *)

Definition prompt_text : str :=
  lit "You are an expert MySQL query generator." ++ nl ++ nl ++
  lit "Given the user's question and the database schema below, you MUST output a valid SQL query " ++
  lit "that can run directly on the connected MySQL database." ++ nl ++ nl ++
  lit "RULES:" ++ nl ++
  lit "- Do NOT explain or reason." ++ nl ++
  lit "- Do NOT include any text outside the SQL." ++ nl ++
  lit "- Always wrap your SQL in triple backticks like this:" ++ nl ++
  lit "```sql" ++ nl ++ lit "SELECT * FROM table_name;" ++ nl ++ lit "```" ++ nl ++
  lit "- Always use LIKE with wildcards for text searches when the user gives partial or approximate names." ++ nl ++
  lit "- Always use existing column names exactly as shown in the schema." ++ nl ++
  lit "- If unsure about column names, infer logically from the schema." ++ nl ++ nl ++
  lit "Database schema:" ++ nl ++ lit "{table_info}" ++ nl ++ nl ++
  lit "User question:" ++ nl ++ lit "{input}" ++ nl ++ nl ++
  lit "Relevant tables:" ++ nl ++ lit "{top_k}" ++ nl.

Definition strict_sql_chain (llm : Llm) (db : Db) : M Chain :=
  prompt <- ext (FromTemplate prompt_text)
                (PromptTemplate_from_template libs prompt_text) ;;
  ext CreateChain (create_sql_query_chain libs llm db prompt).

(** ** Lines 51-139 *)

Definition the_tunnel_args : tunnel_args :=
  {| ssh_address_or_host := (SSH_HOST, 22%N);
     ssh_username := SSH_USER;
     ssh_password := SSH_PASSWORD;
     remote_bind_address := (lit "127.0.0.1", 3306%N);
     local_bind_address := (lit "127.0.0.1", 3307%N);
     allow_agent := false;
     host_pkey_directories := [] |}.

(** U+2192, the arrow of the success message. *)
Definition arrow : str := [0x2192%N].
(** U+274C, the cross mark of the top-level error message. *)
Definition cross_mark : str := [0x274C%N].

Definition established_msg (port : N) : str :=
  lit "SSH tunnel established: 127.0.0.1:" ++ str_of_N port ++ lit " " ++
  arrow ++ lit " " ++ fmt_opt SSH_HOST ++ lit ":3306".

Definition db_uri (port : N) : str :=
  lit "mysql+pymysql://" ++ fmt_opt DB_USER ++ lit ":" ++ fmt_opt DB_PASSWORD ++
  lit "@127.0.0.1:" ++ str_of_N port ++ lit "/" ++ fmt_opt DB_NAME.

Definition show_tables : str := lit "SHOW TABLES;".
Definition all_tables : str := lit "All database tables".

(** Lines 71-76. *)
Definition list_tables (db : Db) : M str :=
  try_except
    (table_data <- ext (DbRun Listing show_tables) (db_run libs db show_tables) ;;
     table_names <- lift (table_names_of table_data) ;;
     ret (join (lit ", ") table_names))
    (fun _ => ret all_tables).

Definition execution_error_msg (error_msg : str) : str :=
  lit "SQL Execution Error: " ++ error_msg.

Definition top_level_error_msg (e : exn) : str :=
  cross_mark ++ lit " Error: " ++ message e.

(** Line 105. *)
Definition retryable (error_msg : str) : bool :=
  contains (lit "Unknown column") error_msg || contains (lit "doesn't exist") error_msg.

(** Lines 106-110. *)
Definition follow_up (error_msg schema question : str) : str :=
  lit "The previous query failed with error: " ++ error_msg ++ lit ". " ++
  lit "Rewrite the SQL correctly using only existing columns from this schema:" ++ nl ++
  schema ++ nl ++
  lit "Question: " ++ question.

(** Lines 101-130: the handler of the first execution's failure. *)
Definition on_execution_error (db : Db) (chain : Chain)
    (question schema top_k_tables : str) (e : exn) : M (option value) :=
  let error_msg := message e in
  emit (St_error (execution_error_msg error_msg)) ;;
  if retryable error_msg then
    let rq := Request (follow_up error_msg schema question) schema top_k_tables in
    retry_text <- ext (Invoke rq) (chain_invoke libs chain rq) ;;
    let retry_sql := extract_retry retry_text in
    emit (St_code retry_sql) ;;
    result <- ext (DbRun Query retry_sql) (db_run libs db retry_sql) ;;
    ret (Some result)
  else
    raise e.

(** Lines 54-130: the body of the outer [try]. *)
Definition guarded_body (question : str) (llm : Llm) : M (option value) :=
  t <- ext (TunnelNew the_tunnel_args) (SSHTunnelForwarder libs the_tunnel_args) ;;
  set_server (Some t) ;;
  ext TunnelStart (server_start libs t) ;;
  port <- ext BindPort (server_local_bind_port libs t) ;;
  emit (St_success (established_msg port)) ;;
  port' <- ext BindPort (server_local_bind_port libs t) ;;
  db <- ext (FromUri (db_uri port')) (SQLDatabase_from_uri libs (db_uri port')) ;;
  schema <- ext GetTableInfo (db_get_table_info libs db) ;;
  top_k_tables <- list_tables db ;;
  chain <- strict_sql_chain llm db ;;
  let rq := Request question schema top_k_tables in
  res_text <- ext (Invoke rq) (chain_invoke libs chain rq) ;;
  let sql_query := extract_initial res_text in
  emit (St_code sql_query) ;;
  try_except
    (result <- ext (DbRun Query sql_query) (db_run libs db sql_query) ;;
     ret (Some result))
    (on_execution_error db chain question schema top_k_tables).

(** Lines 132-134. *)
Definition top_level_handler (e : exn) : M (option value) :=
  emit (St_error (top_level_error_msg e)) ;;
  ret None.

(** Lines 136-139. *)
Definition release : M unit :=
  s <- get_server ;;
  match s with
  | Some t =>
      ext TunnelStop (server_stop libs t) ;;
      emit (St_info (lit "SSH tunnel closed."))
  | None => ret tt
  end.

Definition dataBase (question : str) (llm : Llm) : M (option value) :=
  set_server None ;;
  try_finally
    (try_except (guarded_body question llm) top_level_handler)
    release.

(** ** Lines 149-162: the [Run Query] button *)

Definition on_run_query (question : str) : M unit :=
  if str_eqb (strip question) [] then
    emit (St_warning (lit "Please enter a question."))
  else
    let api_key := getenv (lit "OPENAI_API_KEY") in
    llm <- ext (NewLlm (lit "gpt-4.1") 0 api_key)
               (ChatOpenAI libs (lit "gpt-4.1") 0%N api_key) ;;
    result <- dataBase question llm ;;
    match result with
    | Some v =>
        if truthy v then
          emit (St_success (lit "Query executed successfully!")) ;;
          emit (St_write v)
        else ret tt
    | None => ret tt
    end.

(** A run from a fresh state: outcome, final world and trace. *)
Definition run {A} (m : M A) (w : W) : result A * W * list event :=
  match m (State w [] None) with
  | (r, st) => (r, world st, trace st)
  end.

End Collaborators.

Arguments SSHTunnelForwarder {W Tunnel Db Prompt Chain Llm} l.
Arguments server_start {W Tunnel Db Prompt Chain Llm} l.
Arguments server_local_bind_port {W Tunnel Db Prompt Chain Llm} l.
Arguments server_stop {W Tunnel Db Prompt Chain Llm} l.
Arguments SQLDatabase_from_uri {W Tunnel Db Prompt Chain Llm} l.
Arguments db_get_table_info {W Tunnel Db Prompt Chain Llm} l.
Arguments db_run {W Tunnel Db Prompt Chain Llm} l.
Arguments PromptTemplate_from_template {W Tunnel Db Prompt Chain Llm} l.
Arguments create_sql_query_chain {W Tunnel Db Prompt Chain Llm} l.
Arguments chain_invoke {W Tunnel Db Prompt Chain Llm} l.
Arguments ChatOpenAI {W Tunnel Db Prompt Chain Llm} l.
Arguments State {W Tunnel} world trace server.
Arguments world {W Tunnel} s.
Arguments trace {W Tunnel} s.
Arguments server {W Tunnel} s.
Arguments ret {W Tunnel A} a.
Arguments bind {W Tunnel A B} m k.
Arguments raise {W Tunnel A} e.
Arguments try_except {W Tunnel A} body handler.
Arguments try_finally {W Tunnel A} body cleanup.
Arguments emit {W Tunnel} ev.
Arguments ext {W Tunnel A} c op.
Arguments lift {W Tunnel A} r.
Arguments set_server {W Tunnel} v.
Arguments get_server {W Tunnel}.
Arguments strict_sql_chain {W Tunnel Db Prompt Chain Llm} libs llm db.
Arguments list_tables {W Tunnel Db Prompt Chain Llm} libs db.
Arguments on_execution_error {W Tunnel Db Prompt Chain Llm} libs db chain
  question schema top_k_tables e.
Arguments guarded_body {W Tunnel Db Prompt Chain Llm} libs getenv question llm.
Arguments top_level_handler {W Tunnel} e.
Arguments release {W Tunnel Db Prompt Chain Llm} libs.
Arguments dataBase {W Tunnel Db Prompt Chain Llm} libs getenv question llm.
Arguments on_run_query {W Tunnel Db Prompt Chain Llm} libs getenv question.
Arguments run {W Tunnel A} m w.

(** ** Reading traces *)

Definition is_invoke (ev : event) : bool :=
  match ev with Ext (Invoke _) _ => true | _ => false end.

Definition is_query_run (ev : event) : bool :=
  match ev with Ext (DbRun Query _) _ => true | _ => false end.

Definition is_tunnel_new (ev : event) : bool :=
  match ev with Ext (TunnelNew _) _ => true | _ => false end.

Definition is_tunnel_start (ev : event) : bool :=
  match ev with Ext TunnelStart _ => true | _ => false end.

Definition is_tunnel_stop (ev : event) : bool :=
  match ev with Ext TunnelStop _ => true | _ => false end.

Definition is_error_msg (ev : event) : bool :=
  match ev with St_error _ => true | _ => false end.

Definition is_listing (ev : event) : bool :=
  match ev with Ext (DbRun Listing _) _ => true | _ => false end.

Definition is_failure (ev : event) : bool :=
  match ev with Ext _ (Raised _) => true | _ => false end.

Definition count (p : event -> bool) (tr : list event) : nat :=
  List.length (filter p tr).

(** The [n]-th event (from 0) satisfying [p], with the events after it. *)
Fixpoint nth_matching (p : event -> bool) (n : nat) (tr : list event)
  : option (event * list event) :=
  match tr with
  | [] => None
  | ev :: rest =>
      if p ev then
        match n with
        | O => Some (ev, rest)
        | S n' => nth_matching p n' rest
        end
      else nth_matching p n rest
  end.

(** The run starts with a successful construction of the tunnel object. *)
Definition constructed (tr : list event) : bool :=
  match tr with
  | Ext (TunnelNew _) Returned :: _ => true
  | _ => false
  end.

(** The events of the [finally] block once a tunnel object exists. *)
Definition release_events (o : outcome) : list event :=
  Ext TunnelStop o ::
  match o with
  | Returned => [St_info (lit "SSH tunnel closed.")]
  | Raised _ => []
  end.

(** What the caller gets when the handled body produced [r] and
    [server.stop()] ended with [o]. *)
Definition after_release {A} (r : result A) (o : outcome) : result A :=
  match o with
  | Returned => r
  | Raised e => Raise e
  end.

(** [sub] occurs in [s]. *)
Definition is_substring (sub s : str) : Prop :=
  exists a b, s = a ++ sub ++ b.

(** The message names an unknown column or a missing table. *)
Definition naming_error (error_msg : str) : Prop :=
  is_substring (lit "Unknown column") error_msg \/
  is_substring (lit "doesn't exist") error_msg.

(** An error message is shown before the first attempt to connect
    ([server.start()] or the database connection). *)
Fixpoint error_before_connection (tr : list event) : bool :=
  match tr with
  | [] => false
  | St_error _ :: _ => true
  | Ext TunnelStart _ :: _ => false
  | Ext (FromUri _) _ :: _ => false
  | _ :: rest => error_before_connection rest
  end.

(** The configuration keys of section 6 of the specification. *)
Definition required_keys : list str :=
  [lit "SSH_HOST"; lit "SSH_USER"; lit "SSH_PASSWORD";
   lit "DB_USER"; lit "DB_PASSWORD"; lit "DB_NAME"; lit "OPENAI_API_KEY"].

Definition key_absent (getenv : str -> option str) : Prop :=
  exists k, In k required_keys /\ getenv k = None.

(** ** Scripted collaborators

    A world that plays fixed outcomes: one for the constructor of the
    tunnel, one for [start], one for [SQLDatabase.from_uri], one for
    [stop], and one per successive call of [db.run] and of
    [chain.invoke].  The world counts the calls made so far. *)

Record script := Script {
  on_new : result unit;
  on_start : result unit;
  on_uri : result unit;
  on_runs : list (result value);
  on_invokes : list (result str);
  on_stop : result unit
}.

Definition exhausted {A} : result A := Raise (Exception (lit "script exhausted")).

Definition scripted (sc : script) : Libs (nat * nat) unit unit unit unit unit :=
  {| SSHTunnelForwarder := fun _ w => (on_new sc, w);
     server_start := fun _ w => (on_start sc, w);
     server_local_bind_port := fun _ w => (Ok 3307%N, w);
     server_stop := fun _ w => (on_stop sc, w);
     SQLDatabase_from_uri := fun _ w => (on_uri sc, w);
     db_get_table_info := fun _ w => (Ok (lit "CREATE TABLE customers (id INT, name TEXT)"), w);
     db_run := fun _ _ w => (nth (fst w) (on_runs sc) exhausted, (S (fst w), snd w));
     PromptTemplate_from_template := fun _ w => (Ok tt, w);
     create_sql_query_chain := fun _ _ _ w => (Ok tt, w);
     chain_invoke := fun _ _ w => (nth (snd w) (on_invokes sc) exhausted, (fst w, S (snd w)));
     ChatOpenAI := fun _ _ _ w => (Ok tt, w) |}.

Definition full_env (k : str) : option str := Some (lit "x").

(** Every key is set except [DB_NAME]. *)
Definition env_without_db_name (k : str) : option str :=
  if str_eqb k (lit "DB_NAME") then None else Some (lit "x").

(** Every key is set except [SSH_PASSWORD]. *)
Definition env_without_password (k : str) : option str :=
  if str_eqb k (lit "SSH_PASSWORD") then None else Some (lit "x").

Definition question0 : str := lit "list all customers named John".

Definition listing : result value := Ok (VStr (lit "[('customers',)]")).
Definition rows : result value := Ok (VStr (lit "[(1, 'John')]")).
Definition answer : result str :=
  Ok (lit "```sql" ++ nl ++ lit "SELECT * FROM customers" ++ nl ++ lit "```").
Definition unknown_column : exn :=
  Exception (lit "(1054, Unknown column 'cust_name' in 'field list')").
Definition syntax_error : exn :=
  Exception (lit "(1064, You have an error in your SQL syntax)").

(** Everything succeeds. *)
Definition all_fine : script :=
  Script (Ok tt) (Ok tt) (Ok tt) [listing; rows] [answer] (Ok tt).

(** The constructor of the tunnel raises. *)
Definition constructor_fails : script :=
  Script (Raise (Exception (lit "No password or public key available!")))
         (Ok tt) (Ok tt) [listing; rows] [answer] (Ok tt).

(** The tunnel opens and the database server rejects the database name. *)
Definition unknown_database : script :=
  Script (Ok tt) (Ok tt)
         (Raise (Exception (lit "(1049, Unknown database 'None')")))
         [listing; rows] [answer] (Ok tt).



(** The first execution fails on an unknown column; the retry succeeds. *)
Definition retry_succeeds : script :=
  Script (Ok tt) (Ok tt) (Ok tt) [listing; Raise unknown_column; rows] [answer; answer] (Ok tt).

(** Both executions fail. *)
Definition retry_fails : script :=
  Script (Ok tt) (Ok tt) (Ok tt) [listing; Raise unknown_column; Raise unknown_column]
         [answer; answer] (Ok tt).

(** The first execution fails on a syntax error. *)
Definition not_retryable : script :=
  Script (Ok tt) (Ok tt) (Ok tt) [listing; Raise syntax_error] [answer] (Ok tt).

Definition play (sc : script) (getenv : str -> option str) (question : str) :=
  run (dataBase (scripted sc) getenv question tt) (0, 0).

End Pipeline.

(* ================================================================== *)
(** * The parsing policy as the specification words it *)
(* ================================================================== *)

Module Policy.

(** The text starts with the opening tag: three backticks and [sql] in
    any letter case. *)
Definition is_open_tag (s : str) : bool :=
  match s with
  | a :: b :: c :: d :: e :: f :: _ =>
      Re.backtick a && Re.backtick b && Re.backtick c &&
      Re.ic_s d && Re.ic_q e && Re.ic_l f
  | _ => false
  end.

(** What follows the leftmost opening tag. *)
Fixpoint after_open_tag (s : str) : option str :=
  if is_open_tag s then Some (skipn 6 s)
  else match s with
       | [] => None
       | _ :: s' => after_open_tag s'
       end.

(** What precedes the leftmost closing fence. *)
Fixpoint before_fence (s : str) : option str :=
  if startswith fence s then Some []
  else match s with
       | [] => None
       | c :: s' => option_map (cons c) (before_fence s')
       end.

(** The inner content of the first fenced block, if there is one. *)
Definition fenced_inner (text : str) : option str :=
  match after_open_tag text with
  | Some rest => before_fence rest
  | None => None
  end.

(** "If found, take the inner content, trimmed; if not found, fall back
    to the entire raw text, trimmed." *)
Definition selected (text : str) : str :=
  match fenced_inner text with
  | Some inner => strip inner
  | None => strip text
  end.

(** "Then strip any remaining literal backtick sequences and the literal
    substring sql from the candidate." *)
Definition cleaned (text : str) : str :=
  strip (replace (replace (selected text) fence []) (lit "sql") []).

(** "Finally, if the result does not end with [;], append one." *)
Definition extracted (text : str) : str :=
  if endswith (cleaned text) semicolon then cleaned text
  else cleaned text ++ semicolon.

(** The string ends with [;] and not with [;;]. *)
Definition ends_with_one_terminator (s : str) : Prop :=
  exists body, s = body ++ semicolon /\ endswith body semicolon = false.

End Policy.

(* ================================================================== *)
(** * Vocabulary of the proofs *)
(* ================================================================== *)

(** Only whitespace. *)
Definition all_space (s : str) : bool := forallb isspace s.

(** Number of leading whitespace characters. *)
Fixpoint leading (s : str) : nat :=
  match s with
  | c :: s' => if isspace c then S (leading s') else 0
  | [] => 0
  end.

(** The closing part of the pattern, whitespace then the fence, matches
    at the head of [s]. *)
Definition closes (s : str) : bool := startswith fence (lstrip s).

(** Length of the shortest prefix after which the closing part matches:
    what the lazy group ends up capturing. *)
Fixpoint lazy_scan (s : str) : option nat :=
  if closes s then Some 0
  else match s with
       | [] => None
       | _ :: s' => option_map S (lazy_scan s')
       end.

(** The three tails of the pattern. *)
Definition re_close : list Re.node :=
  [Re.MaxRepeat isspace; Re.In Re.backtick; Re.In Re.backtick; Re.In Re.backtick].
Definition re_group : list Re.node :=
  Re.MinRepeat Re.dot_all :: Re.MarkClose :: re_close.
Definition re_body : list Re.node :=
  Re.MaxRepeat isspace :: Re.MarkOpen :: re_group.

(* ================================================================== *)
(** * Further vocabulary: texts and traces *)
(* ================================================================== *)

(** No backtick occurs in the text. *)
Definition backtick_free (s : str) : bool :=
  forallb (fun c => negb (Re.backtick c)) s.

Module Observe.

Import Pipeline.

Definition is_start_ok (ev : event) : bool :=
  match ev with Ext TunnelStart Returned => true | _ => false end.

(** A call that goes to the database through the tunnel. *)
Definition touches_database (ev : event) : bool :=
  match ev with
  | Ext (FromUri _) _ | Ext GetTableInfo _ | Ext (DbRun _ _) _ => true
  | _ => false
  end.

Definition is_from_uri (ev : event) : bool :=
  match ev with Ext (FromUri _) _ => true | _ => false end.

Definition is_connected (ev : event) : bool :=
  match ev with Ext (FromUri _) Returned => true | _ => false end.

Definition is_schema (ev : event) : bool :=
  match ev with Ext GetTableInfo _ => true | _ => false end.

Definition is_schema_ok (ev : event) : bool :=
  match ev with Ext GetTableInfo Returned => true | _ => false end.

Definition is_template_ok (ev : event) : bool :=
  match ev with Ext (FromTemplate _) Returned => true | _ => false end.

Definition is_create_chain (ev : event) : bool :=
  match ev with Ext CreateChain _ => true | _ => false end.

Definition is_chain_ok (ev : event) : bool :=
  match ev with Ext CreateChain Returned => true | _ => false end.

Definition is_invoke_ok (ev : event) : bool :=
  match ev with Ext (Invoke _) Returned => true | _ => false end.

(** A message of the top-level handler: it starts with the cross mark. *)
Definition is_top_level_msg (ev : event) : bool :=
  match ev with
  | St_error body => startswith cross_mark body
  | _ => false
  end.

(** No event satisfying [q] occurs before the first one satisfying [p]. *)
Fixpoint not_before (p q : event -> bool) (tr : list event) : bool :=
  match tr with
  | [] => true
  | ev :: rest => p ev || (negb (q ev) && not_before p q rest)
  end.

(** The database has no table: the listing returns the empty string. *)
Definition no_tables : script :=
  Script (Ok tt) (Ok tt) (Ok tt) [Ok (VStr []); rows] [answer] (Ok tt).

(** The model answers with the query and its result is empty. *)
Definition empty_result : script :=
  Script (Ok tt) (Ok tt) (Ok tt) [listing; Ok (VStr [])] [answer] (Ok tt).

End Observe.

(* ================================================================== *)
(** * Facts about strings *)
(* ================================================================== *)

Section StringFacts.

Lemma backtick_not_space c : Re.backtick c = true -> isspace c = false.
Proof.
  unfold Re.backtick. intros H. apply N.eqb_eq in H. subst c. reflexivity.
Qed.

Lemma lstrip_skipn s : lstrip s = skipn (leading s) s.
Proof.
  induction s as [|c s IH]; simpl; [reflexivity|].
  destruct (isspace c); simpl; auto.
Qed.

Lemma lstrip_app a b :
  lstrip (a ++ b) = if all_space a then lstrip b else lstrip a ++ b.
Proof.
  induction a as [|c a IH]; simpl; [reflexivity|].
  destruct (isspace c); simpl; auto.
Qed.

Lemma lstrip_all_space s : all_space s = true -> lstrip s = [].
Proof.
  induction s as [|c s IH]; simpl; [reflexivity|].
  destruct (isspace c); simpl; [auto|discriminate].
Qed.

Lemma lstrip_idem s : lstrip (lstrip s) = lstrip s.
Proof.
  induction s as [|c s IH]; simpl; [reflexivity|].
  destruct (isspace c) eqn:E; simpl; [auto|now rewrite E].
Qed.

Lemma all_space_rev s : all_space (rev s) = all_space s.
Proof.
  unfold all_space. induction s as [|c s IH]; simpl; [reflexivity|].
  rewrite forallb_app, IH. simpl. rewrite andb_true_r. apply andb_comm.
Qed.

Lemma rstrip_cons c s :
  rstrip (c :: s) = if all_space s && isspace c then [] else c :: rstrip s.
Proof.
  unfold rstrip. simpl rev. rewrite lstrip_app, all_space_rev.
  destruct (all_space s) eqn:E; simpl.
  - rewrite (lstrip_all_space (rev s)) by now rewrite all_space_rev.
    destruct (isspace c); reflexivity.
  - rewrite rev_app_distr. reflexivity.
Qed.

Lemma rstrip_all_space s : all_space s = true -> rstrip s = [].
Proof.
  intros H. unfold rstrip. rewrite lstrip_all_space; [reflexivity|].
  now rewrite all_space_rev.
Qed.

Lemma startswith_app p s : startswith p (p ++ s) = true.
Proof.
  induction p as [|a p IH]; simpl; [reflexivity|].
  now rewrite N.eqb_refl.
Qed.

Lemma startswith_split p s : startswith p s = true -> s = p ++ skipn (List.length p) s.
Proof.
  revert s. induction p as [|a p IH]; intros [|b s]; simpl; try discriminate; auto.
  intros H. apply andb_true_iff in H. destruct H as [H1 H2].
  apply N.eqb_eq in H1. subst b. f_equal. auto.
Qed.

Lemma endswith_app s suffix : endswith (s ++ suffix) suffix = true.
Proof.
  unfold endswith. rewrite rev_app_distr. apply startswith_app.
Qed.

End StringFacts.

(* ================================================================== *)
(** * The matcher on the source's pattern *)
(* ================================================================== *)

Section MatcherFacts.

Import Re.

Ltac found_eq :=
  repeat match goal with
         | |- Some _ = Some _ => f_equal
         | |- (_, _) = (_, _) => f_equal
         end; lia.

Lemma max_repeat_nil cls rest pos lo hi :
  match_here (MaxRepeat cls :: rest) [] pos lo hi = match_here rest [] pos lo hi.
Proof. reflexivity. Qed.

Lemma max_repeat_cons cls rest c s pos lo hi :
  match_here (MaxRepeat cls :: rest) (c :: s) pos lo hi =
  if cls c then
    match match_here (MaxRepeat cls :: rest) s (S pos) lo hi with
    | Some r => Some r
    | None => match_here rest (c :: s) pos lo hi
    end
  else match_here rest (c :: s) pos lo hi.
Proof. reflexivity. Qed.

Lemma min_repeat_eq cls rest s pos lo hi :
  match_here (MinRepeat cls :: rest) s pos lo hi =
  match match_here rest s pos lo hi with
  | Some r => Some r
  | None =>
      match s with
      | c :: s' => if cls c then match_here (MinRepeat cls :: rest) s' (S pos) lo hi
                   else None
      | [] => None
      end
  end.
Proof. destruct s; reflexivity. Qed.

Lemma three_backticks s pos lo hi :
  match_here [In backtick; In backtick; In backtick] s pos lo hi =
  if startswith fence s then Some (pos + 3, lo, hi) else None.
Proof.
  unfold fence, backtick. change (lit "```") with [96%N; 96%N; 96%N].
  replace (pos + 3) with (S (S (S pos))) by lia.
  destruct s as [|a [|b [|c s]]]; cbn [match_here startswith]; try reflexivity;
    rewrite ?(N.eqb_sym 96);
    repeat match goal with |- context [(?x =? 96)%N] => destruct (x =? 96)%N end;
    reflexivity.
Qed.

Lemma startswith_fence_not_space c s :
  startswith fence (c :: s) = true -> isspace c = false.
Proof.
  unfold fence. change (lit "```") with [96%N; 96%N; 96%N]. cbn [startswith].
  intros H. apply andb_true_iff in H. destruct H as [H _].
  apply backtick_not_space. unfold backtick. now rewrite N.eqb_sym.
Qed.

(** The closing part: the whitespace run is taken whole. *)
Lemma re_close_spec s pos lo hi :
  match_here re_close s pos lo hi =
  if closes s then Some (pos + leading s + 3, lo, hi) else None.
Proof.
  unfold re_close, closes. revert pos.
  induction s as [|c s IH]; intros pos.
  - rewrite max_repeat_nil, three_backticks. simpl. reflexivity.
  - rewrite max_repeat_cons, three_backticks. simpl lstrip. simpl leading.
    destruct (isspace c) eqn:E.
    + rewrite IH. destruct (startswith fence (lstrip s)).
      * found_eq.
      * destruct (startswith fence (c :: s)) eqn:F; [|reflexivity].
        apply startswith_fence_not_space in F. congruence.
    + destruct (startswith fence (c :: s)); [|reflexivity].
      found_eq.
Qed.

(** The lazy group stops at the first place where the closing part
    matches. *)
Lemma re_group_spec s pos lo hi :
  match_here re_group s pos lo hi =
  match lazy_scan s with
  | Some q => Some (pos + q + leading (skipn q s) + 3, lo, pos + q)
  | None => None
  end.
Proof.
  unfold re_group. revert pos.
  induction s as [|c s IH]; intros pos; rewrite min_repeat_eq;
    change (match_here (MarkClose :: re_close) ?s ?p ?l ?h)
      with (match_here re_close s p l p);
    rewrite re_close_spec; simpl lazy_scan.
  - reflexivity.
  - destruct (closes (c :: s)).
    + simpl skipn. found_eq.
    + unfold dot_all at 1. rewrite IH.
      destruct (lazy_scan s) as [q|]; simpl; [|reflexivity].
      found_eq.
Qed.

Lemma closes_space c s : isspace c = true -> closes (c :: s) = closes s.
Proof. unfold closes. simpl. now intros ->. Qed.

Lemma lazy_scan_none_closes s : lazy_scan s = None -> closes s = false.
Proof.
  destruct s as [|c s]; [reflexivity|].
  cbn [lazy_scan]. destruct (closes (c :: s)); congruence.
Qed.

Lemma lazy_scan_lstrip_none s : lazy_scan (lstrip s) = None -> lazy_scan s = None.
Proof.
  induction s as [|c s IH]; [auto|].
  simpl lstrip. destruct (isspace c) eqn:E; [|auto].
  intros H. specialize (IH H). simpl.
  rewrite (closes_space c s E), (lazy_scan_none_closes _ IH), IH. reflexivity.
Qed.

(** The body after the tag: the leading whitespace is skipped whole, and
    giving some of it back never helps. *)
Lemma re_body_spec s pos lo hi :
  match_here re_body s pos lo hi =
  match lazy_scan (lstrip s) with
  | Some q =>
      Some (pos + leading s + q + leading (skipn q (lstrip s)) + 3,
            pos + leading s, pos + leading s + q)
  | None => None
  end.
Proof.
  unfold re_body. revert pos.
  induction s as [|c s IH]; intros pos.
  - rewrite max_repeat_nil.
    change (match_here (MarkOpen :: re_group) ?s ?p ?l ?h)
      with (match_here re_group s p p h).
    rewrite re_group_spec. simpl lstrip. simpl leading.
    destruct (lazy_scan []); [|reflexivity]. found_eq.
  - rewrite max_repeat_cons.
    change (match_here (MarkOpen :: re_group) ?s ?p ?l ?h)
      with (match_here re_group s p p h).
    rewrite re_group_spec. simpl lstrip. simpl leading.
    destruct (isspace c) eqn:E.
    + rewrite IH. destruct (lazy_scan (lstrip s)) as [q|] eqn:L.
      * found_eq.
      * apply lazy_scan_lstrip_none in L.
        simpl. rewrite (closes_space c s E), (lazy_scan_none_closes _ L), L.
        reflexivity.
    + destruct (lazy_scan (c :: s)); [|reflexivity]. found_eq.
Qed.

End MatcherFacts.

(* ================================================================== *)
(** * The matcher against the policy *)
(* ================================================================== *)

Section Refinement.

Import Re.

Lemma rstrip_prefix s : exists w, s = rstrip s ++ w.
Proof.
  induction s as [|c s [w IH]]; [now exists []|].
  rewrite rstrip_cons. destruct (all_space s && isspace c).
  - now exists (c :: s).
  - exists w. simpl. now f_equal.
Qed.

Lemma lstrip_rstrip s : lstrip (rstrip s) = rstrip (lstrip s).
Proof.
  induction s as [|c s IH]; [reflexivity|].
  rewrite rstrip_cons. simpl lstrip.
  destruct (all_space s) eqn:A; destruct (isspace c) eqn:E; simpl andb; cbv iota.
  - rewrite (lstrip_all_space s A). reflexivity.
  - simpl. rewrite E. rewrite rstrip_cons, A, E. reflexivity.
  - simpl. rewrite E. exact IH.
  - simpl. rewrite E. rewrite rstrip_cons, A. reflexivity.
Qed.

Lemma rstrip_idem s : rstrip (rstrip s) = rstrip s.
Proof.
  unfold rstrip. rewrite rev_involutive, lstrip_idem. reflexivity.
Qed.

Lemma strip_idem s : strip (strip s) = strip s.
Proof.
  unfold strip. rewrite lstrip_rstrip, lstrip_idem, rstrip_idem. reflexivity.
Qed.

Lemma startswith_fence_closes s : startswith fence s = true -> closes s = true.
Proof.
  destruct s as [|c s]; [discriminate|].
  intros H. unfold closes. simpl lstrip.
  now rewrite (startswith_fence_not_space c s H).
Qed.

Lemma before_fence_split s inner :
  Policy.before_fence s = Some inner -> exists rest, s = inner ++ fence ++ rest.
Proof.
  revert inner. induction s as [|c s IH]; intros inner; cbn [Policy.before_fence].
  - destruct (startswith fence []) eqn:F; [discriminate F | discriminate].
  - destruct (startswith fence (c :: s)) eqn:F.
    + intros [= <-]. exists (skipn (List.length fence) (c :: s)).
      apply (startswith_split fence (c :: s) F).
    + destruct (Policy.before_fence s) as [i|]; [|discriminate].
      intros [= <-]. destruct (IH i eq_refl) as [rest ->]. now exists rest.
Qed.

Lemma closes_app_space w rest :
  all_space w = true -> closes (w ++ fence ++ rest) = true.
Proof.
  intros A. unfold closes. rewrite lstrip_app, A.
  change (lstrip (fence ++ rest)) with (fence ++ rest). apply startswith_app.
Qed.

Lemma closes_before_fence s :
  closes s = true ->
  exists w, Policy.before_fence s = Some w /\ all_space w = true.
Proof.
  induction s as [|c s IH]; [discriminate|].
  intros H. cbn [Policy.before_fence].
  destruct (startswith fence (c :: s)) eqn:F; [now exists []|].
  destruct (isspace c) eqn:E.
  - rewrite (closes_space c s E) in H. destruct (IH H) as [w [-> A]].
    exists (c :: w). split; [reflexivity|]. simpl. now rewrite E.
  - unfold closes in H. cbn [lstrip] in H. rewrite E in H. congruence.
Qed.

(** What the lazy group captures is the text before the first closing
    fence without its trailing whitespace. *)
Lemma lazy_scan_before_fence s :
  lazy_scan s =
  option_map (fun inner => List.length (rstrip inner)) (Policy.before_fence s).
Proof.
  induction s as [|c s IH]; [reflexivity|].
  cbn [lazy_scan]. destruct (closes (c :: s)) eqn:C.
  - destruct (closes_before_fence _ C) as [w [-> A]]. simpl.
    now rewrite (rstrip_all_space w A).
  - cbn [Policy.before_fence].
    destruct (startswith fence (c :: s)) eqn:F.
    { apply startswith_fence_closes in F. congruence. }
    rewrite IH. destruct (Policy.before_fence s) as [inner|] eqn:B; [|reflexivity].
    simpl. rewrite rstrip_cons.
    destruct (all_space inner && isspace c) eqn:A; [|reflexivity].
    exfalso. apply andb_true_iff in A. destruct A as [A E].
    destruct (before_fence_split _ _ B) as [rest ->].
    assert (closes ((c :: inner) ++ fence ++ rest) = true) as X.
    { apply closes_app_space. simpl. now rewrite E. }
    rewrite <- app_comm_cons in X. congruence.
Qed.

Lemma firstn_rstrip s inner :
  Policy.before_fence s = Some inner ->
  firstn (List.length (rstrip inner)) s = rstrip inner.
Proof.
  intros B. destruct (before_fence_split _ _ B) as [rest ->].
  destruct (rstrip_prefix inner) as [w W].
  rewrite W at 2. rewrite <- app_assoc.
  rewrite firstn_app, Nat.sub_diag, firstn_all. simpl. apply app_nil_r.
Qed.

Lemma before_fence_lstrip s :
  Policy.before_fence (lstrip s) = option_map lstrip (Policy.before_fence s).
Proof.
  induction s as [|c s IH]; [reflexivity|].
  simpl lstrip. destruct (isspace c) eqn:E.
  - rewrite IH. cbn [Policy.before_fence].
    destruct (startswith fence (c :: s)) eqn:F.
    { apply startswith_fence_not_space in F. congruence. }
    destruct (Policy.before_fence s); simpl; [now rewrite E|reflexivity].
  - cbn [Policy.before_fence].
    destruct (startswith fence (c :: s)); [reflexivity|].
    destruct (Policy.before_fence s); simpl; [now rewrite E|reflexivity].
Qed.

Lemma lazy_scan_lstrip_no_fence s :
  Policy.before_fence s = None -> lazy_scan (lstrip s) = None.
Proof.
  intros H. rewrite lazy_scan_before_fence, before_fence_lstrip, H. reflexivity.
Qed.

Lemma before_fence_none_skipn s n :
  Policy.before_fence s = None -> Policy.before_fence (skipn n s) = None.
Proof.
  revert s. induction n as [|n IH]; intros s H; [exact H|].
  destruct s as [|c s]; [exact H|]. simpl skipn. apply IH.
  cbn [Policy.before_fence] in H.
  destruct (startswith fence (c :: s)); [discriminate|].
  destruct (Policy.before_fence s); [discriminate|reflexivity].
Qed.

(** The whole pattern at one position: the tag, then the body. *)
Lemma fence_re_here s pos :
  match_here fence_re s pos 0 0 =
  if Policy.is_open_tag s then match_here re_body (skipn 6 s) (pos + 6) 0 0
  else None.
Proof.
  replace (pos + 6) with (S (S (S (S (S (S pos)))))) by lia.
  unfold fence_re, Policy.is_open_tag.
  destruct s as [|a [|b [|c [|d [|e [|f s]]]]]];
    cbn [match_here]; try reflexivity;
    repeat match goal with
           | |- context [if ?cls ?x then _ else _] =>
               destruct (cls x); cbn [andb]; try reflexivity
           end.
Qed.

Lemma search_no_fence s pos :
  Policy.before_fence (skipn 6 s) = None -> search_from fence_re s pos = None.
Proof.
  revert pos. induction s as [|c s IH]; intros pos H;
    cbn [search_from]; rewrite fence_re_here, re_body_spec.
  - reflexivity.
  - rewrite lazy_scan_lstrip_no_fence with (1 := H).
    assert (search_from fence_re s (S pos) = None) as ->.
    { apply IH. apply (before_fence_none_skipn _ 1) in H.
      rewrite skipn_skipn in H. exact H. }
    destruct (Policy.is_open_tag (c :: s)); reflexivity.
Qed.

Lemma after_open_tag_eq s :
  Policy.after_open_tag s =
  if Policy.is_open_tag s then Some (skipn 6 s)
  else match s with
       | [] => None
       | _ :: s' => Policy.after_open_tag s'
       end.
Proof. destruct s; reflexivity. Qed.

Lemma skipn_app_length (pre s : str) n :
  skipn (List.length pre + n) (pre ++ s) = skipn n s.
Proof.
  induction pre as [|c pre IH]; [reflexivity|]. exact IH.
Qed.

(** [re.search] finds the first fenced block, and group 1 is its inner
    content without the surrounding whitespace. *)
Lemma search_group1 s pre :
  option_map (group1 (pre ++ s)) (search_from fence_re s (List.length pre)) =
  option_map strip (Policy.fenced_inner s).
Proof.
  revert pre. induction s as [|c s IH]; intros pre.
  - reflexivity.
  - cbn [search_from]. rewrite fence_re_here, re_body_spec.
    unfold Policy.fenced_inner. rewrite after_open_tag_eq.
    destruct (Policy.is_open_tag (c :: s)) eqn:T.
    + set (r := skipn 6 (c :: s)).
      destruct (Policy.before_fence r) as [inner|] eqn:B.
      * assert (Policy.before_fence (lstrip r) = Some (lstrip inner)) as BL
          by (now rewrite before_fence_lstrip, B).
        rewrite lazy_scan_before_fence, BL. cbn [option_map].
        unfold group1, slice. cbn [m_lo m_hi].
        replace (_ + _ + _ - _) with (List.length (rstrip (lstrip inner))) by lia.
        rewrite <- Nat.add_assoc, skipn_app_length, Nat.add_comm, <- skipn_skipn.
        fold r. rewrite <- lstrip_skipn.
        rewrite (firstn_rstrip _ _ BL). reflexivity.
      * rewrite (lazy_scan_lstrip_no_fence _ B).
        rewrite search_no_fence; [reflexivity|].
        apply (before_fence_none_skipn _ 1) in B. unfold r in B.
        rewrite skipn_skipn in B. exact B.
    + specialize (IH (pre ++ [c])).
      rewrite <- app_assoc, length_app, Nat.add_comm in IH. exact IH.
Qed.

(** The candidate computed by the code is the candidate of the policy. *)
Lemma candidate_policy text : candidate text = Policy.selected text.
Proof.
  unfold candidate, Policy.selected, search.
  pose proof (search_group1 text []) as H. simpl in H.
  destruct (search_from fence_re text 0) as [m|];
    destruct (Policy.fenced_inner text) as [inner|]; simpl in H;
    try discriminate; [|reflexivity].
  injection H as ->. apply strip_idem.
Qed.

End Refinement.

(* ================================================================== *)
(** * Properties of the extraction *)
(* ================================================================== *)

Section Extraction.

Lemma ensure_terminator_ends s : endswith (ensure_terminator s) semicolon = true.
Proof.
  unfold ensure_terminator. destruct (endswith s semicolon) eqn:E; simpl.
  - exact E.
  - apply endswith_app.
Qed.

Lemma ensure_terminator_fixed s :
  endswith s semicolon = true -> ensure_terminator s = s.
Proof. unfold ensure_terminator. now intros ->. Qed.

Lemma is_open_tag_app a b :
  6 <= List.length a -> Policy.is_open_tag (a ++ b) = Policy.is_open_tag a.
Proof.
  destruct a as [|c1 [|c2 [|c3 [|c4 [|c5 [|c6 a]]]]]]; simpl List.length;
    try lia. reflexivity.
Qed.

Lemma startswith_fence_app a b :
  3 <= List.length a -> startswith fence (a ++ b) = startswith fence a.
Proof.
  destruct a as [|c1 [|c2 [|c3 a]]]; simpl List.length; try lia. reflexivity.
Qed.

Lemma after_open_tag_leftmost pre tag x :
  Policy.is_open_tag tag = true ->
  List.length tag = 6 ->
  (forall k, k < List.length pre -> Policy.is_open_tag (skipn k (pre ++ tag)) = false) ->
  Policy.after_open_tag (pre ++ tag ++ x) = Some x.
Proof.
  intros T L. induction pre as [|c pre IH]; intros H; rewrite after_open_tag_eq.
  - simpl app. rewrite is_open_tag_app, T by lia.
    rewrite <- L, skipn_app, skipn_all, Nat.sub_diag. reflexivity.
  - rewrite app_assoc, is_open_tag_app by (rewrite length_app; simpl; lia).
    assert (0 < List.length (c :: pre)) as H0 by (simpl; lia).
    apply H in H0. cbn [skipn] in H0. rewrite H0.
    rewrite <- app_assoc. cbn [app].
    apply IH. intros k Hk. apply (H (S k)). simpl. lia.
Qed.

Lemma before_fence_leftmost inner x :
  (forall k, k < List.length inner -> startswith fence (skipn k (inner ++ fence)) = false) ->
  Policy.before_fence (inner ++ fence ++ x) = Some inner.
Proof.
  induction inner as [|c inner IH]; intros H.
  - simpl app. now destruct x.
  - cbn [app Policy.before_fence].
    change (c :: inner ++ fence ++ x) with ((c :: inner) ++ fence ++ x).
    rewrite app_assoc, startswith_fence_app by (rewrite length_app; simpl; lia).
    assert (0 < List.length (c :: inner)) as H0 by (simpl; lia).
    apply H in H0. cbn [skipn] in H0. rewrite H0.
    rewrite IH; [reflexivity|].
    intros k Hk. apply (H (S k)). simpl. lia.
Qed.

(** C1, as amended: the query executed by the initial attempt is the one
    the parsing policy describes -- the trimmed inner content of the first
    fenced block if there is one, the trimmed text otherwise, then one
    pass removing the triple backticks, one pass removing [sql], a trim,
    and a [;] appended when the text does not end with one -- and it
    always ends with [;]. *)
Theorem extract_initial_policy (res_text : str) :
  extract_initial res_text = Policy.extracted res_text /\
  endswith (extract_initial res_text) semicolon = true /\
  (extract_initial res_text = Policy.cleaned res_text \/
   Policy.ends_with_one_terminator (extract_initial res_text)).
Proof.
  assert (extract_initial res_text = Policy.extracted res_text) as E.
  { unfold extract_initial, Policy.extracted, Policy.cleaned, ensure_terminator, cleanup.
    rewrite candidate_policy.
    destruct (endswith _ semicolon); reflexivity. }
  split; [exact E|]. split; [apply ensure_terminator_ends|].
  rewrite E. unfold Policy.extracted.
  destruct (endswith (Policy.cleaned res_text) semicolon) eqn:C.
  - now left.
  - right. now exists (Policy.cleaned res_text).
Qed.

(** C1, as stated, fails: the result can end with more than one [;]. *)
Lemma extract_initial_two_terminators :
  extract_initial two_terminators = lit "SELECT 1;;" /\
  ~ Policy.ends_with_one_terminator (extract_initial two_terminators).
Proof.
  assert (extract_initial two_terminators = lit "SELECT 1;" ++ semicolon) as E
    by (vm_compute; reflexivity).
  split; [exact E|].
  intros [body [H1 H2]]. rewrite E in H1.
  apply app_inj_tail in H1. destruct H1 as [<- _].
  vm_compute in H2. discriminate.
Qed.

(** Only runs of three backticks are removed, and one pass of each removal
    can leave, or even create, what it removes. *)
Lemma cleanup_residue :
  extract_initial (lit "SELECT `id` FROM t") = lit "SELECT `id` FROM t;" /\
  extract_initial (lit "ssqlql") = lit "sql;" /\
  extract_initial (lit "``sql`") = lit "```;".
Proof. repeat split; vm_compute; reflexivity. Qed.

(** C2: on the same answer the retry keeps the fences that the initial
    attempt removes. *)
Theorem retry_skips_cleanup :
  extract_initial fenced_without_tag = lit "SELECT name FROM customers;" /\
  extract_retry fenced_without_tag =
    lit "```" ++ nl ++ lit "SELECT name FROM customers;" ++ nl ++ lit "```;".
Proof. split; vm_compute; reflexivity. Qed.

(** C9: a string that already ends with [;] is left unchanged by the
    terminator step, in the initial attempt and in the retry alike. *)
Theorem terminator_idempotent (s : str) (H : endswith s semicolon = true) :
  ensure_terminator s = s /\
  (forall res_text, cleanup (candidate res_text) = s -> extract_initial res_text = s) /\
  (forall retry_text, candidate retry_text = s -> extract_retry retry_text = s).
Proof.
  split; [now apply ensure_terminator_fixed|].
  split; intros text E; unfold extract_initial, extract_retry;
    rewrite E; now apply ensure_terminator_fixed.
Qed.

Lemma terminator_idempotent_witness :
  extract_initial (lit "SELECT 1;") = lit "SELECT 1;" /\
  extract_retry (lit "SELECT 1;") = lit "SELECT 1;".
Proof.
  destruct (terminator_idempotent (lit "SELECT 1;") eq_refl) as [_ [H1 H2]].
  split; [apply H1 | apply H2]; reflexivity.
Defined.

(** C10: when the answer holds several fenced blocks, the candidate is
    the trimmed inner content of the leftmost one, whatever follows its
    closing fence; both attempts build their query from it. *)
Theorem first_block_wins (pre tag inner rest : str)
  (Htag : Policy.is_open_tag tag = true)
  (Hlen : List.length tag = 6)
  (Hleft : forall k, k < List.length pre ->
             Policy.is_open_tag (skipn k (pre ++ tag)) = false)
  (Hinner : forall k, k < List.length inner ->
             startswith fence (skipn k (inner ++ fence)) = false) :
  let text := pre ++ tag ++ inner ++ fence ++ rest in
  candidate text = strip inner /\
  extract_initial text = ensure_terminator (cleanup (strip inner)) /\
  extract_retry text = ensure_terminator (strip inner).
Proof.
  intros text.
  assert (candidate text = strip inner) as C.
  { rewrite candidate_policy. unfold Policy.selected, Policy.fenced_inner, text.
    rewrite (after_open_tag_leftmost pre tag _ Htag Hlen Hleft).
    rewrite (before_fence_leftmost inner rest Hinner). reflexivity. }
  unfold extract_initial, extract_retry. rewrite C. auto.
Qed.

Lemma first_block_wins_witness :
  extract_initial
    (lit "Use " ++ lit "```SQL" ++ (nl ++ lit "SELECT a FROM t" ++ nl) ++ fence ++
     lit " or ```sql SELECT b FROM u```")
  = lit "SELECT a FROM t;".
Proof.
  refine (eq_trans
    (proj1 (proj2 (first_block_wins (lit "Use ") (lit "```SQL")
       (nl ++ lit "SELECT a FROM t" ++ nl) (lit " or ```sql SELECT b FROM u```")
       eq_refl eq_refl _ _))) eq_refl).
  - intros k Hk. do 4 (destruct k as [|k]; [reflexivity|]). simpl in Hk. lia.
  - intros k Hk. do 17 (destruct k as [|k]; [reflexivity|]). simpl in Hk. lia.
Defined.

End Extraction.

(* ================================================================== *)
(** * Properties of the pipeline *)
(* ================================================================== *)

Import Pipeline.

Lemma contains_spec sub s : contains sub s = true <-> is_substring sub s.
Proof.
  unfold is_substring. split.
  - induction s as [|c s IH]; cbn [contains]; intros H;
      apply orb_true_iff in H; destruct H as [H|H].
    + exists [], (skipn (List.length sub) []). now apply startswith_split.
    + discriminate.
    + exists [], (skipn (List.length sub) (c :: s)). now apply startswith_split.
    + destruct (IH H) as [a [b ->]]. now exists (c :: a), b.
  - intros [a [b ->]]. induction a as [|c a IH].
    + cbn [app]. destruct (sub ++ b) eqn:E; cbn [contains]; rewrite <- E;
        now rewrite startswith_app.
    + cbn [app contains]. rewrite IH. apply orb_true_r.
Qed.

(** The test of line 105 is the substring test of the specification. *)
Lemma retryable_spec m : retryable m = true <-> naming_error m.
Proof.
  unfold retryable, naming_error. rewrite orb_true_iff, !contains_spec. tauto.
Qed.

Lemma not_retryable_spec m : retryable m = false <-> ~ naming_error m.
Proof.
  rewrite <- retryable_spec. destruct (retryable m); split; congruence.
Qed.

(* ================================================================== *)
(** * Further properties of the extraction *)
(* ================================================================== *)

Section MoreExtraction.

Lemma startswith_length p s : startswith p s = true -> List.length p <= List.length s.
Proof.
  revert s. induction p as [|a p IH]; intros [|b s]; simpl; try discriminate; try lia.
  intros H. apply andb_true_iff in H. destruct H as [_ H]. apply IH in H. lia.
Qed.

Lemma replace_from_length old s k :
  List.length (replace_from old [] s k) <= List.length s - k.
Proof.
  revert k. induction s as [|c s IH]; intros k; [simpl; lia|].
  cbn [replace_from]. destruct k as [|k].
  - destruct (startswith old (c :: s)) eqn:E.
    + cbn [app]. specialize (IH (List.length old - 1)). simpl List.length. lia.
    + simpl List.length. specialize (IH 0). lia.
  - specialize (IH k). simpl List.length. lia.
Qed.

Lemma replace_from_removes old s k :
  contains old (skipn k s) = true ->
  List.length (replace_from old [] s k) + List.length old <= List.length s - k.
Proof.
  revert k. induction s as [|c s IH]; intros k H.
  - rewrite skipn_nil in H. cbn [contains] in H. rewrite orb_false_r in H.
    apply startswith_length in H. simpl in *. lia.
  - cbn [replace_from]. destruct k as [|k].
    + cbn [skipn contains] in H.
      destruct (startswith old (c :: s)) eqn:E.
      * cbn [app]. pose proof (replace_from_length old s (List.length old - 1)).
        apply startswith_length in E. simpl List.length in *. lia.
      * cbn [orb] in H. specialize (IH 0 H). simpl List.length. lia.
    + cbn [skipn] in H. specialize (IH k H). simpl List.length. lia.
Qed.

Lemma replace_absent old new s :
  contains old s = false -> replace s old new = s.
Proof.
  unfold replace. induction s as [|c s IH]; intros H; [reflexivity|].
  cbn [contains] in H. apply orb_false_iff in H. destruct H as [H1 H2].
  cbn [replace_from]. rewrite H1. f_equal. auto.
Qed.

Lemma lstrip_length s : List.length (lstrip s) <= List.length s.
Proof.
  induction s as [|c s IH]; simpl; [lia|]. destruct (isspace c); simpl; lia.
Qed.

Lemma strip_length s : List.length (strip s) <= List.length s.
Proof.
  unfold strip, rstrip. rewrite length_rev.
  pose proof (lstrip_length (rev (lstrip s))). rewrite length_rev in H.
  pose proof (lstrip_length s). lia.
Qed.

Lemma ensure_terminator_length s :
  List.length s <= List.length (ensure_terminator s) <= List.length s + 1.
Proof.
  unfold ensure_terminator. destruct (endswith s semicolon); simpl;
    rewrite ?length_app; simpl; lia.
Qed.

(** The cleanup pass loses at least three characters as soon as there is
    something to remove. *)
Lemma cleanup_shrinks c :
  contains fence c = true \/ contains (lit "sql") c = true ->
  List.length (cleanup c) + 3 <= List.length c.
Proof.
  intros H. unfold cleanup.
  pose proof (strip_length (replace (replace c fence []) (lit "sql") [])) as S1.
  assert (List.length (replace (replace c fence []) (lit "sql") []) + 3 <= List.length c); [|lia].
  unfold replace at 1.
  pose proof (replace_from_length (lit "sql") (replace c fence []) 0) as A.
  destruct (contains fence c) eqn:F.
  - pose proof (replace_from_removes fence c 0 F) as B. unfold replace in *.
    change (List.length fence) with 3 in B. lia.
  - rewrite (replace_absent fence [] c F).
    destruct H as [H|H]; [discriminate|].
    pose proof (replace_from_removes (lit "sql") c 0 H) as B.
    change (List.length (lit "sql")) with 3 in B. lia.
Qed.

(** Without anything to remove, the cleanup pass only trims. *)
Lemma cleanup_keeps_clean_text (c : str)
  (Hf : contains fence c = false) (Hs : contains (lit "sql") c = false) :
  cleanup c = strip c.
Proof.
  unfold cleanup. rewrite (replace_absent fence [] c Hf).
  rewrite (replace_absent (lit "sql") [] c Hs). reflexivity.
Qed.


Lemma candidate_trimmed text : strip (candidate text) = candidate text.
Proof.
  unfold candidate. destruct (Re.search Re.fence_re text); apply strip_idem.
Qed.

(** X2: from the same answer, the initial attempt and the retry build the
    same query exactly when the candidate contains neither three
    backticks in a row nor the lowercase text [sql]. *)
Theorem attempts_agree_iff_clean (text : str) :
  extract_initial text = extract_retry text <->
  contains fence (candidate text) = false /\
  contains (lit "sql") (candidate text) = false.
Proof.
  split.
  - intros E.
    destruct (contains fence (candidate text)) eqn:F;
      destruct (contains (lit "sql") (candidate text)) eqn:S; auto;
      exfalso;
      assert (contains fence (candidate text) = true \/
              contains (lit "sql") (candidate text) = true) as H by (rewrite ?F, ?S; auto);
      apply cleanup_shrinks in H;
      pose proof (ensure_terminator_length (cleanup (candidate text)));
      pose proof (ensure_terminator_length (candidate text));
      unfold extract_initial, extract_retry in E; rewrite E in *; lia.
  - intros [F S]. unfold extract_initial, extract_retry.
    rewrite (cleanup_keeps_clean_text _ F S), candidate_trimmed. reflexivity.
Qed.

Lemma backtick_free_app a b :
  backtick_free (a ++ b) = backtick_free a && backtick_free b.
Proof. apply forallb_app. Qed.

Lemma all_space_backtick_free s : all_space s = true -> backtick_free s = true.
Proof.
  unfold all_space, backtick_free. induction s as [|c s IH]; simpl; [reflexivity|].
  intros H. apply andb_true_iff in H. destruct H as [H1 H2].
  rewrite (IH H2), andb_true_r.
  destruct (Re.backtick c) eqn:B; [|reflexivity].
  apply backtick_not_space in B. congruence.
Qed.

Lemma startswith_fence_backtick c s :
  startswith fence (c :: s) = true -> Re.backtick c = true.
Proof.
  unfold fence. change (lit "```") with [96%N; 96%N; 96%N]. cbn [startswith].
  intros H. apply andb_true_iff in H. destruct H as [H _].
  unfold Re.backtick. now rewrite N.eqb_sym.
Qed.

Lemma backtick_free_no_fence s x :
  backtick_free s = true ->
  forall k, k < List.length s -> startswith fence (skipn k (s ++ x)) = false.
Proof.
  induction s as [|c s IH]; intros B k Hk; [simpl in Hk; lia|].
  cbn [backtick_free forallb] in B. apply andb_true_iff in B. destruct B as [B1 B2].
  destruct k as [|k].
  - cbn [skipn app]. destruct (startswith fence (c :: s ++ x)) eqn:E; [|reflexivity].
    apply startswith_fence_backtick in E. rewrite E in B1. discriminate.
  - cbn [skipn app]. apply IH; [exact B2 | simpl in Hk; lia].
Qed.

Lemma backtick_free_no_tag s x :
  backtick_free s = true ->
  forall k, k < List.length s -> Policy.is_open_tag (skipn k (s ++ x)) = false.
Proof.
  induction s as [|c s IH]; intros B k Hk; [simpl in Hk; lia|].
  cbn [backtick_free forallb] in B. apply andb_true_iff in B. destruct B as [B1 B2].
  destruct k as [|k].
  - cbn [skipn app]. unfold Policy.is_open_tag.
    destruct (Re.backtick c); [discriminate|].
    destruct (s ++ x) as [|? [|? [|? [|? [|? ?]]]]]; reflexivity.
  - cbn [skipn app]. apply IH; [exact B2 | simpl in Hk; lia].
Qed.

Lemma backtick_free_contains_fence s : backtick_free s = true -> contains fence s = false.
Proof.
  induction s as [|c s IH]; intros B; [reflexivity|].
  cbn [contains]. pose proof (backtick_free_no_fence (c :: s) [] B 0) as H.
  rewrite app_nil_r in H. cbn [skipn] in H. rewrite H by (simpl; lia).
  cbn [backtick_free forallb] in B. apply andb_true_iff in B. now apply IH.
Qed.

Lemma backtick_free_lstrip s : backtick_free s = true -> backtick_free (lstrip s) = true.
Proof.
  induction s as [|c s IH]; intros B; [reflexivity|].
  cbn [lstrip]. destruct (isspace c); [|exact B].
  cbn [backtick_free forallb] in B. apply andb_true_iff in B. now apply IH.
Qed.

Lemma backtick_free_rev s : backtick_free (rev s) = backtick_free s.
Proof.
  unfold backtick_free. induction s as [|c s IH]; [reflexivity|].
  simpl. rewrite forallb_app, IH. simpl. rewrite andb_true_r. apply andb_comm.
Qed.

Lemma backtick_free_strip s : backtick_free s = true -> backtick_free (strip s) = true.
Proof.
  intros B. unfold strip, rstrip. rewrite backtick_free_rev.
  apply backtick_free_lstrip. rewrite backtick_free_rev.
  now apply backtick_free_lstrip.
Qed.

Lemma rstrip_app_space s w : all_space w = true -> rstrip (s ++ w) = rstrip s.
Proof.
  intros A. unfold rstrip. rewrite rev_app_distr, lstrip_app, all_space_rev, A.
  reflexivity.
Qed.

Lemma strip_padded a q b :
  all_space a = true -> all_space b = true -> strip (a ++ q ++ b) = strip q.
Proof.
  intros A B. unfold strip at 1. rewrite lstrip_app, A.
  change (rstrip (lstrip (q ++ b))) with (strip (q ++ b)).
  unfold strip. rewrite <- !lstrip_rstrip, (rstrip_app_space q b B). reflexivity.
Qed.

Lemma backtick_free_after_open_tag s :
  backtick_free s = true -> Policy.after_open_tag s = None.
Proof.
  induction s as [|c s IH]; intros B; [reflexivity|].
  rewrite after_open_tag_eq.
  pose proof (backtick_free_no_tag (c :: s) [] B 0) as H.
  rewrite app_nil_r in H. cbn [skipn] in H. rewrite H by (simpl; lia).
  cbn [backtick_free forallb] in B. apply andb_true_iff in B. now apply IH.
Qed.

(** X1: an answer in the format the prompt asks for -- prose without
    backticks, the tag in any letter case, whitespace, a statement without
    backticks, whitespace, the closing fence, anything -- gives back the
    trimmed statement with its terminator, in the retry and, when the
    statement does not contain [sql], in the initial attempt. *)
Theorem fenced_answer_round_trip (pre tag ws1 q ws2 rest : str)
  (Hpre : backtick_free pre = true)
  (Htag : Policy.is_open_tag tag = true)
  (Hlen : List.length tag = 6)
  (Hws1 : all_space ws1 = true)
  (Hws2 : all_space ws2 = true)
  (Hq : backtick_free q = true) :
  let text := pre ++ tag ++ (ws1 ++ q ++ ws2) ++ fence ++ rest in
  candidate text = strip q /\
  extract_retry text = ensure_terminator (strip q) /\
  (contains (lit "sql") (strip q) = false ->
   extract_initial text = ensure_terminator (strip q)).
Proof.
  intros text.
  assert (candidate text = strip q) as C.
  { rewrite candidate_policy. unfold Policy.selected, Policy.fenced_inner, text.
    rewrite (after_open_tag_leftmost pre tag _ Htag Hlen
               (backtick_free_no_tag pre tag Hpre)).
    rewrite before_fence_leftmost.
    - apply strip_padded; assumption.
    - apply backtick_free_no_fence.
      rewrite !backtick_free_app, Hq, !all_space_backtick_free by assumption.
      reflexivity. }
  split; [exact C|]. split.
  - unfold extract_retry. now rewrite C.
  - intros S. unfold extract_initial. rewrite C.
    rewrite cleanup_keeps_clean_text, strip_idem; auto.
    apply backtick_free_contains_fence. now apply backtick_free_strip.
Qed.

(** X3: an empty or all-whitespace answer becomes the query [;] in both
    attempts. *)
Theorem blank_answer_gives_bare_terminator (text : str)
  (H : all_space text = true) :
  extract_initial text = semicolon /\ extract_retry text = semicolon.
Proof.
  assert (candidate text = []) as C.
  { rewrite candidate_policy. unfold Policy.selected, Policy.fenced_inner.
    rewrite backtick_free_after_open_tag by now apply all_space_backtick_free.
    unfold strip. now rewrite (lstrip_all_space _ H). }
  unfold extract_initial, extract_retry. rewrite C. split; reflexivity.
Qed.

Lemma replace_from_skip old new s k :
  replace_from old new s k = replace_from old new (skipn k s) 0.
Proof.
  revert k. induction s as [|c s IH]; intros [|k]; try reflexivity.
  cbn [replace_from skipn]. apply IH.
Qed.

Lemma replace_prefix old new y :
  old <> [] -> replace (old ++ y) old new = new ++ replace y old new.
Proof.
  intros N. destruct old as [|a old]; [congruence|].
  unfold replace. cbn [app replace_from].
  change (a :: old ++ y) with ((a :: old) ++ y). rewrite startswith_app.
  rewrite replace_from_skip.
  replace (List.length (a :: old) - 1) with (List.length old) by (simpl; lia).
  rewrite skipn_app, skipn_all, Nat.sub_diag. reflexivity.
Qed.

Lemma backtick_free_before_fence s :
  backtick_free s = true -> Policy.before_fence s = None.
Proof.
  induction s as [|c s IH]; intros B; [reflexivity|].
  cbn [Policy.before_fence].
  pose proof (backtick_free_no_fence (c :: s) [] B 0) as H.
  rewrite app_nil_r in H. cbn [skipn] in H. rewrite H by (simpl; lia).
  cbn [backtick_free forallb] in B. apply andb_true_iff in B.
  rewrite IH; [reflexivity|tauto].
Qed.

Lemma contains_prefix sub a w : contains sub a = true -> contains sub (a ++ w) = true.
Proof.
  rewrite !contains_spec. intros [x [y ->]]. exists x, (y ++ w).
  now rewrite <- !app_assoc.
Qed.

Lemma contains_rstrip sub s : contains sub s = false -> contains sub (rstrip s) = false.
Proof.
  intros H. destruct (contains sub (rstrip s)) eqn:E; [|reflexivity].
  destruct (rstrip_prefix s) as [w W]. rewrite W in H.
  rewrite (contains_prefix sub _ w E) in H. discriminate.
Qed.

Lemma backtick_free_rstrip s : backtick_free s = true -> backtick_free (rstrip s) = true.
Proof.
  intros B. unfold rstrip. rewrite backtick_free_rev.
  apply backtick_free_lstrip. now rewrite backtick_free_rev.
Qed.

Lemma backtick_free_replace_from old s k :
  backtick_free s = true -> backtick_free (replace_from old [] s k) = true.
Proof.
  revert k. induction s as [|c s IH]; intros k B; [reflexivity|].
  cbn [backtick_free forallb] in B. apply andb_true_iff in B. destruct B as [B1 B2].
  cbn [replace_from]. destruct k as [|k]; [|now apply IH].
  destruct (startswith old (c :: s)); cbn [app]; [now apply IH|].
  cbn [backtick_free forallb]. rewrite B1. now apply IH.
Qed.

Lemma backtick_free_ensure_terminator s :
  backtick_free s = true -> backtick_free (ensure_terminator s) = true.
Proof.
  intros B. unfold ensure_terminator. destruct (endswith s semicolon); cbn [negb];
    [exact B|]. rewrite backtick_free_app, B. reflexivity.
Qed.

(** X4: when the answer opens the fence and never closes it, the whole
    text is the candidate: the retry keeps the tag in the query; the
    initial attempt always removes it -- its query is the rest of the
    text with one pass removing [sql], trimmed and terminated, and holds
    no backtick -- and when the rest does not contain [sql] it is the
    trimmed rest with its terminator. *)
Theorem unclosed_fence (x : str)
  (Hx : backtick_free x = true) :
  let text := lit "```sql" ++ x in
  extract_retry text = ensure_terminator (lit "```sql" ++ rstrip x) /\
  extract_initial text
    = ensure_terminator (strip (replace (rstrip x) (lit "sql") [])) /\
  backtick_free (extract_initial text) = true /\
  (contains (lit "sql") x = false ->
   extract_initial text = ensure_terminator (strip x)).
Proof.
  intros text.
  assert (candidate text = lit "```sql" ++ rstrip x) as C.
  { rewrite candidate_policy. unfold Policy.selected, Policy.fenced_inner, text.
    pose proof (after_open_tag_leftmost [] (lit "```sql") x eq_refl eq_refl) as A.
    cbn [app] in A. rewrite A by (intros k Hk; simpl in Hk; lia).
    rewrite (backtick_free_before_fence x Hx).
    unfold strip. change (lstrip (lit "```sql" ++ x)) with (lit "```sql" ++ x).
    change (lit "```sql") with [96; 96; 96; 115; 113; 108]%N. cbn [app].
    rewrite !rstrip_cons. cbn [isspace].
    repeat rewrite andb_false_r. reflexivity. }
  assert (extract_initial text
          = ensure_terminator (strip (replace (rstrip x) (lit "sql") []))) as I.
  { unfold extract_initial. rewrite C. unfold cleanup.
    change (lit "```sql" ++ rstrip x) with (fence ++ lit "sql" ++ rstrip x).
    rewrite replace_prefix by discriminate. cbn [app].
    rewrite (replace_absent fence [] (lit "sql" ++ rstrip x)).
    - rewrite replace_prefix by discriminate. reflexivity.
    - apply backtick_free_contains_fence. rewrite backtick_free_app.
      now rewrite backtick_free_rstrip. }
  split; [unfold extract_retry; now rewrite C|].
  split; [exact I|]. split.
  - rewrite I. apply backtick_free_ensure_terminator, backtick_free_strip.
    unfold replace. apply backtick_free_replace_from.
    now apply backtick_free_rstrip.
  - intros S. rewrite I.
    rewrite (replace_absent (lit "sql") [] (rstrip x)) by now apply contains_rstrip.
    unfold strip. now rewrite lstrip_rstrip, rstrip_idem.
Qed.

Lemma lstrip_strip s : lstrip (strip s) = strip s.
Proof. unfold strip. now rewrite lstrip_rstrip, lstrip_idem. Qed.

Lemma lstrip_fixed_head c s : lstrip (c :: s) = c :: s -> isspace c = false.
Proof.
  cbn [lstrip]. destruct (isspace c); [|reflexivity].
  intros H. pose proof (lstrip_length s) as L. rewrite H in L. simpl in L. lia.
Qed.

Lemma ensure_terminator_no_leading_space s :
  lstrip s = s -> lstrip (ensure_terminator s) = ensure_terminator s.
Proof.
  intros H. unfold ensure_terminator.
  destruct (endswith s semicolon); cbn [negb]; [exact H|].
  destruct s as [|c s]; [reflexivity|].
  apply lstrip_fixed_head in H. cbn [app lstrip]. now rewrite H.
Qed.

Lemma extract_initial_no_leading_space t : lstrip (extract_initial t) = extract_initial t.
Proof.
  unfold extract_initial, cleanup.
  apply ensure_terminator_no_leading_space, lstrip_strip.
Qed.

Lemma extract_retry_no_leading_space t : lstrip (extract_retry t) = extract_retry t.
Proof.
  unfold extract_retry, candidate.
  apply ensure_terminator_no_leading_space.
  destruct (Re.search Re.fence_re t); apply lstrip_strip.
Qed.

Lemma lstrip_nil_all_space s : lstrip s = [] -> all_space s = true.
Proof.
  induction s as [|c s IH]; [reflexivity|].
  cbn [lstrip all_space forallb]. destruct (isspace c); [exact IH|discriminate].
Qed.

Lemma rstrip_nil_all_space s : rstrip s = [] -> all_space s = true.
Proof.
  intros H. rewrite <- all_space_rev. apply lstrip_nil_all_space.
  unfold rstrip in H. apply (f_equal (@rev char)) in H.
  now rewrite rev_involutive in H.
Qed.

Lemma strip_nil_all_space q : str_eqb (strip q) [] = all_space q.
Proof.
  unfold str_eqb.
  match goal with
  | |- context [list_eq_dec ?a ?b ?c] => destruct (list_eq_dec a b c) as [E|N]
  end.
  - symmetry. unfold strip in E. apply rstrip_nil_all_space in E.
    apply lstrip_nil_all_space. apply lstrip_all_space in E.
    now rewrite lstrip_idem in E.
  - destruct (all_space q) eqn:A; [|reflexivity].
    exfalso. apply N. unfold strip. now rewrite (lstrip_all_space q A).
Qed.

End MoreExtraction.

Lemma fenced_answer_round_trip_witness :
  extract_initial
    (lit "Here it is: " ++ lit "```SQL" ++
     (nl ++ lit "SELECT * FROM orders" ++ nl) ++ fence ++ lit " Done.")
  = lit "SELECT * FROM orders;".
Proof.
  refine (eq_trans
    (proj2 (proj2 (fenced_answer_round_trip (lit "Here it is: ") (lit "```SQL")
       nl (lit "SELECT * FROM orders") nl (lit " Done.")
       eq_refl eq_refl eq_refl eq_refl eq_refl eq_refl)) eq_refl) eq_refl).
Defined.

Lemma blank_answer_gives_bare_terminator_witness :
  extract_initial (lit "  " ++ nl) = lit ";" /\ extract_retry (lit "  " ++ nl) = lit ";".
Proof.
  exact (blank_answer_gives_bare_terminator (lit "  " ++ nl) eq_refl).
Defined.

Lemma unclosed_fence_witness :
  extract_retry (lit "```sql" ++ nl ++ lit "SELECT sql_id FROM t")
    = lit "```sql" ++ nl ++ lit "SELECT sql_id FROM t;" /\
  extract_initial (lit "```sql" ++ nl ++ lit "SELECT sql_id FROM t")
    = lit "SELECT _id FROM t;" /\
  extract_initial (lit "```sql" ++ nl ++ lit "SELECT 1") = lit "SELECT 1;".
Proof.
  pose proof (unclosed_fence (nl ++ lit "SELECT sql_id FROM t") eq_refl) as H.
  pose proof (unclosed_fence (nl ++ lit "SELECT 1") eq_refl) as K.
  cbv zeta in H, K. destruct H as [R [I _]]. destruct K as [_ [_ [_ J]]].
  split; [exact (eq_trans R eq_refl)|].
  split; [exact (eq_trans I eq_refl) | exact (eq_trans (J eq_refl) eq_refl)].
Defined.

Section PipelineFacts.

Variables W Tunnel Db Prompt Chain Llm : Type.
Variable libs : Libs W Tunnel Db Prompt Chain Llm.
Variable getenv : str -> option str.

Ltac tidy R := cbn [world trace server app fst snd] in R.

Ltac unfold_pipeline R :=
  unfold run, on_run_query, dataBase, guarded_body, on_execution_error, list_tables,
    strict_sql_chain, top_level_handler, release, try_finally, try_except,
    bind, ret, raise, ext, emit, lift, set_server, get_server in R;
  tidy R.

Ltac is_lib_call op :=
  lazymatch op with
  | ?f libs _ _ => idtac
  | ?f libs _ _ _ => idtac
  | ?f libs _ _ _ _ => idtac
  end.

(** One more branching point of the run: a library call that returns or
    raises, or a test of the code. *)
Ltac branch R :=
  match type of R with
  | context [match ?op with pair _ _ => _ end] =>
      is_lib_call op;
      let r := fresh "r" in let w := fresh "w" in let E := fresh "E" in
      destruct op as [[r|r] w] eqn:E
  | context [match table_names_of ?v with _ => _ end] =>
      destruct (table_names_of v) eqn:?
  | context [if retryable ?m then _ else _] =>
      destruct (retryable m) eqn:?
  | context [if str_eqb ?a ?b then _ else _] =>
      destruct (str_eqb a b) eqn:?
  | context [if truthy ?v then _ else _] =>
      destruct (truthy v) eqn:?
  end; tidy R.

(** Case analysis on every path of the run in the goal. *)
Ltac paths :=
  cbv zeta;
  match goal with
  | |- context [run ?m ?w] =>
      let R := fresh "R" in
      destruct (run m w) as [[? ?] ?] eqn:R;
      unfold_pipeline R; repeat branch R;
      injection R as ? ? ?; subst
  end;
  cbn [fst snd].

Ltac read_trace H :=
  cbn [nth_matching is_query_run is_listing is_tunnel_stop is_tunnel_new snd fst] in H;
  try discriminate H;
  try (injection H; clear H; intros; subst).

Ltac counts :=
  cbn [count filter is_invoke is_query_run is_tunnel_new is_tunnel_start
       is_tunnel_stop is_error_msg is_failure is_listing List.length
       constructed fst snd].

Ltac pick_in :=
  solve [cbn [In]; repeat first [left; reflexivity | right]].

Ltac split_in H :=
  cbn [In] in H;
  repeat match goal with
         | X : _ \/ _ |- _ => destruct X as [X|X]
         | X : False |- _ => destruct X
         | X : _ = Ext _ _ |- _ => try discriminate X; injection X as ? ?; subst
         end.

(** Case analysis on the position of an event in a concrete trace. *)
Ltac at_index j H :=
  destruct j as [|j]; cbn [nth_error] in H;
  [ try discriminate H | first [discriminate H | at_index j H] ].

(** Lines 101-130 in terms of the library calls. *)
Lemma on_execution_error_eq question e :
  forall db chain schema top_k st,
     on_execution_error libs db chain question schema top_k e st =
     let shown := trace st ++ [St_error (execution_error_msg (message e))] in
     if retryable (message e) then
       let rq := Request (follow_up (message e) schema question) schema top_k in
       match chain_invoke libs chain rq (world st) with
       | (Raise e', w1) =>
           (Raise e', State w1 (shown ++ [Ext (Invoke rq) (Raised e')]) (server st))
       | (Ok retry_text, w1) =>
           let retry_sql := extract_retry retry_text in
           match db_run libs db retry_sql w1 with
           | (Ok v, w2) =>
               (Ok (Some v),
                State w2 (shown ++ [Ext (Invoke rq) Returned; St_code retry_sql;
                                    Ext (DbRun Query retry_sql) Returned])
                      (server st))
           | (Raise e2, w2) =>
               (Raise e2,
                State w2 (shown ++ [Ext (Invoke rq) Returned; St_code retry_sql;
                                    Ext (DbRun Query retry_sql) (Raised e2)])
                      (server st))
           end
       end
     else (Raise e, State (world st) shown (server st)).
Proof.
  intros db chain schema top_k st. cbv zeta.
  unfold on_execution_error, bind, ext, emit, ret, raise.
  destruct (retryable (message e)); [|reflexivity].
  destruct st as [w0 tr sv]. cbv beta iota delta [world trace server].
  match goal with
  | |- context [chain_invoke libs chain ?rq ?w] =>
      destruct (chain_invoke libs chain rq w) as [[text|e'] w1]
  end; [|reflexivity].
  match goal with
  | |- context [db_run libs db ?q ?w] =>
      destruct (db_run libs db q w) as [[v|e2] w2]
  end; rewrite <- !app_assoc; cbn [app]; reflexivity.
Qed.

(** C3: when the first execution fails, the synthesizer is invoked again
    exactly when the message contains [Unknown column] or [doesn't exist].
    The retry is a whole second attempt: the corrective request with the
    schema and table list of the first one, then, when the model answers,
    the query extracted from the answer shown and executed once, its
    result returned or its failure handed to the top-level handler.  For
    any other message the same exception goes straight to the top-level
    handler, and nothing but the release of the tunnel follows. *)
Theorem retry_iff_naming_error question llm w sql e rest :
  let out := run (dataBase libs getenv question llm) w in
  nth_matching is_query_run 0 (snd out)
    = Some (Ext (DbRun Query sql) (Raised e), rest) ->
  (existsb is_invoke rest = true <-> naming_error (message e)) /\
  (naming_error (message e) ->
     exists schema top_k o tail,
       In (Ext (Invoke (Request question schema top_k)) Returned) (snd out) /\
       rest = St_error (execution_error_msg (message e))
              :: Ext (Invoke (Request (follow_up (message e) schema question)
                                      schema top_k)) o
              :: tail /\
       match o with
       | Raised e' =>
           exists os,
             tail = St_error (top_level_error_msg e') :: release_events os /\
             fst (fst out) = after_release (Ok None) os
       | Returned =>
           exists retry_sql o2 tail2,
             tail = St_code retry_sql :: Ext (DbRun Query retry_sql) o2 :: tail2 /\
             match o2 with
             | Returned =>
                 exists v os,
                   tail2 = release_events os /\
                   fst (fst out) = after_release (Ok (Some v)) os
             | Raised e2 =>
                 exists os,
                   tail2 = St_error (top_level_error_msg e2) :: release_events os /\
                   fst (fst out) = after_release (Ok None) os
             end
       end) /\
  (~ naming_error (message e) ->
     exists o,
       rest = St_error (execution_error_msg (message e))
              :: St_error (top_level_error_msg e)
              :: release_events o /\
       fst (fst out) = after_release (Ok None) o) /\
  (forall db chain schema top_k st,
     on_execution_error libs db chain question schema top_k e st =
     let shown := trace st ++ [St_error (execution_error_msg (message e))] in
     if retryable (message e) then
       let rq := Request (follow_up (message e) schema question) schema top_k in
       match chain_invoke libs chain rq (world st) with
       | (Raise e', w1) =>
           (Raise e', State w1 (shown ++ [Ext (Invoke rq) (Raised e')]) (server st))
       | (Ok retry_text, w1) =>
           let retry_sql := extract_retry retry_text in
           match db_run libs db retry_sql w1 with
           | (Ok v, w2) =>
               (Ok (Some v),
                State w2 (shown ++ [Ext (Invoke rq) Returned; St_code retry_sql;
                                    Ext (DbRun Query retry_sql) Returned])
                      (server st))
           | (Raise e2, w2) =>
               (Raise e2,
                State w2 (shown ++ [Ext (Invoke rq) Returned; St_code retry_sql;
                                    Ext (DbRun Query retry_sql) (Raised e2)])
                      (server st))
           end
       end
     else (Raise e, State (world st) shown (server st))).
Proof.
  paths; intros H; read_trace H.
  all: repeat match goal with
         | X : retryable _ = true |- _ => apply retryable_spec in X
         | X : retryable _ = false |- _ => apply not_retryable_spec in X
         end.
  all: (split; [cbn [existsb is_invoke orb]; intuition congruence|]).
  all: (split; [|split; [|apply on_execution_error_eq]]); intros N; try tauto.
  all: try (exists Returned; split; reflexivity).
  all: try (eexists (Raised _); split; reflexivity).
  all: do 4 eexists; split; [pick_in|]; split; [reflexivity|].
  all: first
    [ exists Returned; split; reflexivity
    | eexists (Raised _); split; reflexivity
    | do 3 eexists; split; [reflexivity|];
      first [ eexists; exists Returned; split; reflexivity
            | match goal with
              | v : value |- _ => exists v; eexists (Raised _); split; reflexivity
              end
            | exists Returned; split; reflexivity
            | eexists (Raised _); split; reflexivity ] ].
Qed.

(** C4: a run invokes the synthesizer at most twice and executes at most
    two synthesized queries; when the second execution fails, its
    exception goes to the top-level handler and only the release of the
    tunnel follows. *)
Theorem at_most_two_attempts question llm w :
  let out := run (dataBase libs getenv question llm) w in
  count is_invoke (snd out) <= 2 /\
  count is_query_run (snd out) <= 2 /\
  forall sql e2 rest,
    nth_matching is_query_run 1 (snd out)
      = Some (Ext (DbRun Query sql) (Raised e2), rest) ->
    exists o,
      rest = St_error (top_level_error_msg e2) :: release_events o /\
      fst (fst out) = after_release (Ok None) o.
Proof.
  paths; (split; [counts; lia|]); (split; [counts; lia|]);
    intros sql e2 rest H; read_trace H.
  all: first [ exists Returned; split; reflexivity
             | eexists (Raised _); split; reflexivity ].
Qed.

(** C5, as amended: the tunnel object is constructed once and started at
    most once; [server.stop()] is called exactly once when the
    construction succeeded and not at all when it raised; it is the last
    library call of the run. *)
Theorem tunnel_released_once question llm w :
  let tr := snd (run (dataBase libs getenv question llm) w) in
  count is_tunnel_new tr = 1 /\
  count is_tunnel_start tr <= 1 /\
  count is_tunnel_stop tr = (if constructed tr then 1 else 0) /\
  forall ev rest,
    nth_matching is_tunnel_stop 0 tr = Some (ev, rest) ->
    rest = [] \/ rest = [St_info (lit "SSH tunnel closed.")].
Proof.
  paths; counts; (split; [reflexivity|]); (split; [lia|]);
    (split; [reflexivity|]);
    intros ev rest H; read_trace H; auto.
Qed.



(** C7, as amended: the code never checks the configuration.  The values
    are handed to the libraries as they were read, absent ones as [None];
    an error message precedes the first connection attempt only when the
    constructor of the tunnel itself raises, and it is then the message of
    the top-level handler; once the constructor has returned
    [server.start()] is called, and once that has returned the port is
    read and the database is connected with the connection string built
    from the values; every error message shown follows a library call
    that raised; and when no library call raises the run goes all the way
    to the execution of the query. *)
Theorem configuration_is_not_checked question w :
  let tr := snd (run (on_run_query libs getenv question) w) in
  (error_before_connection tr = true ->
   exists e,
     tr = [Ext (NewLlm (lit "gpt-4.1") 0 (getenv (lit "OPENAI_API_KEY"))) Returned;
           Ext (TunnelNew (the_tunnel_args getenv)) (Raised e);
           St_error (top_level_error_msg e)]) /\
  (forall args rest,
     nth_matching is_tunnel_new 0 tr = Some (Ext (TunnelNew args) Returned, rest) ->
     args = the_tunnel_args getenv /\
     exists o tail, rest = Ext TunnelStart o :: tail) /\
  (ssh_address_or_host (the_tunnel_args getenv) = (getenv (lit "SSH_HOST"), 22%N) /\
   ssh_username (the_tunnel_args getenv) = getenv (lit "SSH_USER") /\
   ssh_password (the_tunnel_args getenv) = getenv (lit "SSH_PASSWORD") /\
   forall port,
     db_uri getenv port =
     lit "mysql+pymysql://" ++ fmt_opt (getenv (lit "DB_USER")) ++ lit ":" ++
     fmt_opt (getenv (lit "DB_PASSWORD")) ++ lit "@127.0.0.1:" ++ str_of_N port ++
     lit "/" ++ fmt_opt (getenv (lit "DB_NAME"))) /\
  (str_eqb (strip question) [] = false ->
   exists o tail,
     tr = Ext (NewLlm (lit "gpt-4.1") 0 (getenv (lit "OPENAI_API_KEY"))) o :: tail) /\
  (forall rest,
     nth_matching is_tunnel_start 0 tr = Some (Ext TunnelStart Returned, rest) ->
     exists o1 tail1,
       rest = Ext BindPort o1 :: tail1 /\
       (o1 = Returned ->
        exists port o2 tail2,
          tail1 = St_success (established_msg getenv port) :: Ext BindPort o2 :: tail2 /\
          (o2 = Returned ->
           exists port' o3 tail3,
             tail2 = Ext (FromUri (db_uri getenv port')) o3 :: tail3))) /\
  (forall i m,
     nth_error tr i = Some (St_error m) ->
     exists c e,
       (nth_error tr (pred i) = Some (Ext c (Raised e)) /\
        (m = top_level_error_msg e \/ m = execution_error_msg (message e))) \/
       (nth_error tr (pred (pred i)) = Some (Ext c (Raised e)) /\
        nth_error tr (pred i) = Some (St_error (execution_error_msg (message e))) /\
        m = top_level_error_msg e)) /\
  (str_eqb (strip question) [] = false ->
   count is_failure tr = 0 ->
   exists port port' schema top_k sql tail,
     tr = [Ext (NewLlm (lit "gpt-4.1") 0 (getenv (lit "OPENAI_API_KEY"))) Returned;
           Ext (TunnelNew (the_tunnel_args getenv)) Returned;
           Ext TunnelStart Returned;
           Ext BindPort Returned;
           St_success (established_msg getenv port);
           Ext BindPort Returned;
           Ext (FromUri (db_uri getenv port')) Returned;
           Ext GetTableInfo Returned;
           Ext (DbRun Listing show_tables) Returned;
           Ext (FromTemplate prompt_text) Returned;
           Ext CreateChain Returned;
           Ext (Invoke (Request question schema top_k)) Returned;
           St_code sql;
           Ext (DbRun Query sql) Returned;
           Ext TunnelStop Returned;
           St_info (lit "SSH tunnel closed.")] ++ tail /\
     (tail = [] \/
      exists v, tail = [St_success (lit "Query executed successfully!");
                        St_write v])).
Proof.
  paths;
    (split;
     [ intros H; cbn [error_before_connection] in H; try discriminate H;
       eexists; reflexivity |]);
    (split;
     [ intros args rest H; read_trace H;
       (split; [reflexivity | do 2 eexists; reflexivity]) |]);
    (split; [repeat split; reflexivity|]);
    (split; [intros Hq; try congruence; do 2 eexists; reflexivity|]);
    (split;
     [| split;
        [| intros Hq Hc;
           first
             [ congruence
             | cbn [count filter is_failure List.length] in Hc;
               first
                 [ discriminate Hc
                 | do 6 eexists; split;
                   [ reflexivity
                   | first [left; reflexivity | right; eexists; reflexivity] ] ] ] ] ]).
  all: try (intros rest H; cbn [nth_matching is_tunnel_start] in H;
            first
              [ discriminate H
              | injection H as <-;
                do 2 eexists; split; [reflexivity|];
                intros Ho;
                first
                  [ discriminate Ho
                  | do 3 eexists; split; [reflexivity|];
                    intros Ho2;
                    first [discriminate Ho2 | do 3 eexists; reflexivity] ] ]).
  all: intros i m H; at_index i H; injection H as <-; do 2 eexists;
    first
      [ left; split; [reflexivity | first [left; reflexivity | right; reflexivity]]
      | right; split; [reflexivity | split; reflexivity] ].
Qed.


(** ** Further properties *)

Import Observe.

Ltac scan j H :=
  destruct j as [|j]; cbn [nth_error] in H;
  [ try discriminate H | first [discriminate H | scan j H] ].

(** X6: in every run the database is only reached after [server.start()]
    returned, the schema is read only after the connection was made, the
    tables are listed only after the schema was read, the chain is built
    only after the template was, the model is invoked only after the chain
    was built, and a synthesized query is executed only after the model
    answered. *)
Theorem calls_follow_the_pipeline_order question llm w :
  let tr := snd (run (dataBase libs getenv question llm) w) in
  not_before is_start_ok touches_database tr = true /\
  not_before is_connected is_schema tr = true /\
  not_before is_schema_ok is_listing tr = true /\
  not_before is_template_ok is_create_chain tr = true /\
  not_before is_chain_ok is_invoke tr = true /\
  not_before is_invoke_ok is_query_run tr = true.
Proof.
  paths; repeat split; reflexivity.
Qed.

(** X5: every synthesized query that is executed was shown by [st.code]
    just before, ends with [;] and does not start with whitespace. *)
Theorem executed_queries_are_shown_and_terminated question llm w j sql o :
  let tr := snd (run (dataBase libs getenv question llm) w) in
  nth_error tr j = Some (Ext (DbRun Query sql) o) ->
  nth_error tr (pred j) = Some (St_code sql) /\
  endswith sql semicolon = true /\
  lstrip sql = sql.
Proof.
  paths; intros H; scan j H.
  all: injection H as <- <-; split; [reflexivity|].
  all: first
    [ split; [apply ensure_terminator_ends | apply extract_initial_no_leading_space]
    | split; [apply ensure_terminator_ends | apply extract_retry_no_leading_space] ].
Qed.


Ltac counts' :=
  cbn [count filter is_invoke is_query_run is_error_msg is_listing is_from_uri
       is_schema is_create_chain is_top_level_msg List.length fst snd];
  repeat match goal with
         | |- context [startswith cross_mark (top_level_error_msg ?e)] =>
             change (startswith cross_mark (top_level_error_msg e)) with true
         | |- context [startswith cross_mark (execution_error_msg ?m)] =>
             change (startswith cross_mark (execution_error_msg m)) with false
         end;
  cbn [count filter List.length is_top_level_msg].

(** X7: a run connects, reads the schema, lists the tables and builds the
    chain at most once each; the first request always asks the user's
    question; a second request only follows a first request that returned
    and a failed first execution, and carries the same schema and table
    list, its question being the corrective text built from that failure's
    message, the schema and the user's question. *)
Theorem schema_is_fetched_once_and_reused question llm w :
  let tr := snd (run (dataBase libs getenv question llm) w) in
  count is_from_uri tr <= 1 /\
  count is_schema tr <= 1 /\
  count is_listing tr <= 1 /\
  count is_create_chain tr <= 1 /\
  forall rq1 o1 rest1,
    nth_matching is_invoke 0 tr = Some (Ext (Invoke rq1) o1, rest1) ->
    rq_question rq1 = question /\
    forall rq2 o2 rest2,
      nth_matching is_invoke 0 rest1 = Some (Ext (Invoke rq2) o2, rest2) ->
      o1 = Returned /\
      exists sql e rest',
        nth_matching is_query_run 0 rest1
          = Some (Ext (DbRun Query sql) (Raised e), rest') /\
        rq2 = Request (follow_up (message e) (rq_table_info rq1) question)
                      (rq_table_info rq1) (rq_top_k rq1).
Proof.
  paths; counts'; repeat (split; [lia|]);
    intros rq1 o1 rest1 H1;
    cbn [nth_matching is_invoke] in H1; try discriminate H1;
    injection H1 as <- <- <-;
    (split; [reflexivity|]);
    intros rq2 o2 rest2 H2;
    cbn [nth_matching is_invoke] in H2; try discriminate H2;
    injection H2 as <- <- <-.
  all: split; [reflexivity|]; do 3 eexists; split; reflexivity.
Qed.

(** X8: a run shows at most two error messages, at most one of them from
    the top-level handler; [dataBase] returns [None] only after that
    message; when it returns a value no such message was shown, and the
    run ends with a successful execution followed by the release of the
    tunnel. *)
Theorem result_matches_what_is_shown question llm w :
  let out := run (dataBase libs getenv question llm) w in
  count is_error_msg (snd out) <= 2 /\
  count is_top_level_msg (snd out) <= 1 /\
  (fst (fst out) = Ok None -> count is_top_level_msg (snd out) = 1) /\
  (forall v, fst (fst out) = Ok (Some v) ->
     count is_top_level_msg (snd out) = 0 /\
     exists sql pre,
       rev (snd out) = St_info (lit "SSH tunnel closed.")
                       :: Ext TunnelStop Returned
                       :: Ext (DbRun Query sql) Returned :: pre).
Proof.
  paths; counts'.
  all: split; [cbn [count filter is_error_msg List.length]; lia|].
  all: split; [lia|].
  all: split; [intros H; try discriminate H; reflexivity|].
  all: intros v H; try discriminate H.
  all: split; [reflexivity|]; cbn [rev app]; do 2 eexists; reflexivity.
Qed.

Ltac split_in' H :=
  cbn [In] in H;
  repeat match goal with
         | X : _ \/ _ |- _ => destruct X as [X|X]
         | X : False |- _ => destruct X
         | X : _ = Ext _ _ |- _ => try discriminate X; injection X as ? ?; subst
         | X : _ = St_write _ |- _ => try discriminate X; injection X as ?; subst
         end.

(** X12: the button handler lets an exception out only when [ChatOpenAI]
    raised, and nothing else was then called, or when [server.stop()]
    raised; a result is written only when it is truthy, as the last thing
    after the success message and the release of the tunnel, and no
    top-level error was shown in that run. *)
Theorem run_query_shows_truthy_results_only question w :
  let out := run (on_run_query libs getenv question) w in
  (forall e, fst (fst out) = Raise e ->
     snd out = [Ext (NewLlm (lit "gpt-4.1") 0 (getenv (lit "OPENAI_API_KEY"))) (Raised e)] \/
     In (Ext TunnelStop (Raised e)) (snd out)) /\
  (forall v, In (St_write v) (snd out) ->
     truthy v = true /\
     fst (fst out) = Ok tt /\
     count is_error_msg (snd out) <= 1 /\
     count is_top_level_msg (snd out) = 0 /\
     exists pre,
       rev (snd out) = St_write v
                       :: St_success (lit "Query executed successfully!")
                       :: St_info (lit "SSH tunnel closed.")
                       :: Ext TunnelStop Returned :: pre).
Proof.
  paths;
    (split; [intros e' H; try discriminate H; injection H as <-;
             first [left; reflexivity | right; pick_in]|]);
    intros v H; split_in' H.
  all: split; [assumption|]; split; [reflexivity|].
  all: counts'; split; [cbn [count filter is_error_msg List.length]; lia|].
  all: split; [reflexivity|]; cbn [rev app]; eexists; reflexivity.
Qed.

(** X11: a question that is empty or all whitespace only gets the
    warning, no library is called and the world is unchanged; any other
    question starts with the construction of the model client. *)
Theorem blank_question_calls_nothing question w :
  let out := run (on_run_query libs getenv question) w in
  (all_space question = true ->
   out = (Ok tt, w, [St_warning (lit "Please enter a question.")])) /\
  (all_space question = false ->
   exists o tail,
     snd out = Ext (NewLlm (lit "gpt-4.1") 0 (getenv (lit "OPENAI_API_KEY"))) o
               :: tail).
Proof.
  paths;
    match goal with X : str_eqb _ _ = _ |- _ => rewrite strip_nil_all_space in X end;
    split; intros A; try congruence; try reflexivity.
  all: do 2 eexists; reflexivity.
Qed.

(** X10: when [DB_NAME] is not set, every connection string handed to
    [SQLDatabase.from_uri] ends with [/None]. *)
Theorem absent_database_name_is_sent_as_None question llm w uri o
  (Habsent : getenv (lit "DB_NAME") = None) :
  In (Ext (FromUri uri) o) (snd (run (dataBase libs getenv question llm) w)) ->
  endswith uri (lit "/None") = true.
Proof.
  paths; intros H; split_in H.
  all: unfold db_uri, DB_NAME; rewrite Habsent; cbn [fmt_opt];
    rewrite !app_assoc; rewrite <- app_assoc;
    change (lit "/" ++ lit "None") with (lit "/None"); apply endswith_app.
Qed.

(** X9: when the listing returns an empty result, the candidate table
    list is the empty string, not the sentinel, and nothing is shown. *)
Theorem empty_listing_is_not_the_sentinel db st v w1 :
  db_run libs db show_tables (world st) = (Ok v, w1) ->
  truthy v = false ->
  list_tables libs db st =
    (Ok [], State w1 (trace st ++ [Ext (DbRun Listing show_tables) Returned])
                  (server st)).
Proof.
  intros H T. unfold list_tables, try_except, bind, ext, ret, lift. rewrite H.
  cbn [world trace server].
  destruct v as [[|c s]|[|t rows]]; try discriminate T; reflexivity.
Qed.

End PipelineFacts.

Lemma retry_iff_naming_error_witness :
  existsb is_invoke
    (skipn 13 (snd (play retry_succeeds full_env question0))) = true.
Proof.
  refine (proj2 (proj1 (retry_iff_naming_error _ _ _ _ _ _
            (scripted retry_succeeds) full_env question0 tt (0, 0)
            (lit "SELECT * FROM customers;") unknown_column _ _)) _).
  - vm_compute. reflexivity.
  - apply (proj1 (retryable_spec _)). vm_compute. reflexivity.
Defined.

Lemma at_most_two_attempts_witness :
  fst (fst (play retry_fails full_env question0)) = Ok None.
Proof.
  destruct (proj2 (proj2 (at_most_two_attempts _ _ _ _ _ _
              (scripted retry_fails) full_env question0 tt (0, 0)))
              (lit "SELECT * FROM customers;") unknown_column
              (skipn 17 (snd (play retry_fails full_env question0))) eq_refl)
    as [[|e] [H1 H2]].
  - exact H2.
  - vm_compute in H1. discriminate H1.
Defined.

(** C5, as stated, fails: when the constructor of the tunnel raises,
    [server.stop()] is never called. *)
Lemma no_close_when_constructor_fails :
  count is_tunnel_stop
    (snd (play constructor_fails env_without_password question0)) = 0 /\
  count is_tunnel_stop
    (snd (play constructor_fails env_without_password question0)) <> 1.
Proof. split; vm_compute; [reflexivity|discriminate]. Qed.

Lemma tunnel_released_once_witness :
  count is_tunnel_stop (snd (play all_fine full_env question0)) = 1.
Proof.
  exact (proj1 (proj2 (proj2 (tunnel_released_once _ _ _ _ _ _
           (scripted all_fine) full_env question0 tt (0, 0))))).
Defined.



(** C7, as stated, fails: with [DB_NAME] absent the tunnel is started and
    the database is contacted before anything is reported. *)
Lemma absent_key_goes_unnoticed :
  let tr := snd (run (on_run_query (scripted unknown_database) env_without_db_name
                        question0) (0, 0)) in
  key_absent env_without_db_name /\
  error_before_connection tr = false /\
  existsb is_tunnel_start tr = true.
Proof.
  split; [|vm_compute; auto].
  exists (lit "DB_NAME"). split; [|reflexivity].
  unfold required_keys. cbn [In]. auto 10.
Qed.

Lemma configuration_is_not_checked_witness :
  exists e,
    snd (run (on_run_query (scripted constructor_fails) env_without_password
                question0) (0, 0))
    = [Ext (NewLlm (lit "gpt-4.1") 0 (env_without_password (lit "OPENAI_API_KEY")))
           Returned;
       Ext (TunnelNew (the_tunnel_args env_without_password)) (Raised e);
       St_error (top_level_error_msg e)].
Proof.
  apply (proj1 (configuration_is_not_checked _ _ _ _ _ _
           (scripted constructor_fails) env_without_password question0 (0, 0))).
  vm_compute. reflexivity.
Defined.


(* ================================================================== *)
(** * The scenarios of the specification *)
(* ================================================================== *)

Example fenced_answer :
  extract_initial (lit "```sql" ++ nl ++
                   lit "SELECT * FROM customers WHERE name LIKE '%John%'" ++ nl ++
                   lit "```")
  = lit "SELECT * FROM customers WHERE name LIKE '%John%';".
Proof. vm_compute. reflexivity. Qed.

Example unfenced_answer :
  extract_initial (lit "SELECT * FROM orders") = lit "SELECT * FROM orders;".
Proof. vm_compute. reflexivity. Qed.

Example search_span :
  Re.search Re.fence_re (lit "x```sql  " ++ nl ++ lit " ```` ")
  = Some (Re.MatchObj 1 14 11 11).
Proof. vm_compute. reflexivity. Qed.

Example long_s_tag :
  candidate ([96; 96; 96; 0x17F; 113; 108]%N ++ lit " x```") = lit "x".
Proof. vm_compute. reflexivity. Qed.

Example retry_scenario :
  count is_invoke (snd (play retry_fails full_env question0)) = 2 /\
  count is_query_run (snd (play retry_fails full_env question0)) = 2 /\
  count is_tunnel_stop (snd (play retry_fails full_env question0)) = 1.
Proof. vm_compute. auto. Qed.

(* ================================================================== *)
(** * The further properties on the scripted runs *)
(* ================================================================== *)

Import Observe.

Lemma executed_queries_are_shown_and_terminated_witness :
  nth_error (snd (play all_fine full_env question0)) 11
  = Some (St_code (lit "SELECT * FROM customers;")).
Proof.
  exact (proj1 (executed_queries_are_shown_and_terminated _ _ _ _ _ _
           (scripted all_fine) full_env question0 tt (0, 0)
           12 (lit "SELECT * FROM customers;") Returned eq_refl)).
Defined.

Lemma result_matches_what_is_shown_witness :
  count is_top_level_msg (snd (play not_retryable full_env question0)) = 1.
Proof.
  exact (proj1 (proj2 (proj2 (result_matches_what_is_shown _ _ _ _ _ _
           (scripted not_retryable) full_env question0 tt (0, 0)))) eq_refl).
Defined.

Lemma empty_listing_is_not_the_sentinel_witness :
  fst (list_tables (scripted no_tables) tt (State (0, 0) [] None)) = Ok [].
Proof.
  exact (f_equal fst
    (empty_listing_is_not_the_sentinel _ _ _ _ _ _ (scripted no_tables)
       tt (State (0, 0) [] None) (VStr []) (1, 0) eq_refl eq_refl)).
Defined.

Lemma absent_database_name_is_sent_as_None_witness :
  endswith (lit "mysql+pymysql://x:x@127.0.0.1:3307/None") (lit "/None") = true.
Proof.
  apply (absent_database_name_is_sent_as_None _ _ _ _ _ _
           (scripted unknown_database) env_without_db_name question0 tt (0, 0)
           (lit "mysql+pymysql://x:x@127.0.0.1:3307/None")
           (Raised (Exception (lit "(1049, Unknown database 'None')")))
           eq_refl).
  vm_compute. do 5 right. left. reflexivity.
Defined.

Lemma blank_question_calls_nothing_witness :
  run (on_run_query (scripted all_fine) full_env (lit "   ")) (0, 0)
  = (Ok tt, (0, 0), [St_warning (lit "Please enter a question.")]).
Proof.
  exact (proj1 (blank_question_calls_nothing _ _ _ _ _ _
           (scripted all_fine) full_env (lit "   ") (0, 0)) eq_refl).
Defined.

Lemma run_query_shows_truthy_results_only_witness :
  fst (fst (run (on_run_query (scripted all_fine) full_env question0) (0, 0)))
  = Ok tt.
Proof.
  refine (proj1 (proj2 (proj2 (run_query_shows_truthy_results_only _ _ _ _ _ _
            (scripted all_fine) full_env question0 (0, 0))
            (VStr (lit "[(1, 'John')]")) _))).
  vm_compute. do 17 right. left. reflexivity.
Defined.

(** A query that returns nothing: no success message and nothing written. *)
Example empty_result_shows_nothing :
  existsb (fun ev => match ev with St_write _ => true | _ => false end)
    (snd (run (on_run_query (scripted empty_result) full_env question0) (0, 0)))
  = false /\
  count is_error_msg
    (snd (run (on_run_query (scripted empty_result) full_env question0) (0, 0)))
  = 0.
Proof. vm_compute. auto. Qed.

Lemma schema_is_fetched_once_and_reused_witness :
  exists rq1 rq2 rest,
    nth_matching is_invoke 1 (snd (play retry_succeeds full_env question0))
      = Some (Ext (Invoke rq2) Returned, rest) /\
    rq_question rq1 = question0 /\
    rq_table_info rq2 = rq_table_info rq1 /\
    rq_top_k rq2 = rq_top_k rq1.
Proof.
  pose proof (proj2 (proj2 (proj2 (proj2
    (schema_is_fetched_once_and_reused _ _ _ _ _ _
       (scripted retry_succeeds) full_env question0 tt (0, 0)))))) as H.
  edestruct H as [Q H2]; [vm_compute; reflexivity|].
  edestruct H2 as [_ [sql [e [rest' [_ R]]]]]; [vm_compute; reflexivity|].
  eexists; eexists; eexists. split; [vm_compute; reflexivity|].
  split; [exact Q|]. rewrite R. split; reflexivity.
Defined.
